(** * RestGPT: the Caller execution step and the Orchestrator loop

    A shallow embedding of [model/caller.py] and [model/rest_gpt.py].

    - Python strings are [string]s whose characters are code points below
      256.
    - The objects [json.loads] returns and the endpoint documentation
      dictionaries are values of [pyval]; numbers are integers.  A
      documentation object is a tree: no dictionary is reached from two
      places.
    - Exceptions are values of [exn], returned through [res].
    - The specification, with its shared and mutable documentation
      objects, the state of the collaborators and a log of what a run
      did are threaded through the computations of [World.M].
    - The collaborators that live outside the two modules (the language
      model, the HTTP wrapper, the response parser, the planner, the
      selector, the endpoint matcher, the YAML serialiser, the tokenizer,
      [json.loads] and the clock) are variables of the sections.  A
      collaborator answers every call, from a state of its own that it
      may change, and does not touch the arguments it is given.
    - Times are rationals.  The [while] loop of the Orchestrator takes
      fuel; [RestGPTFacts.loop_fuel_suffices] bounds the fuel it needs
      under an iteration ceiling. *)

From Stdlib Require Import ZArith QArith Ascii DecimalString.
From stdpp Require Import gmap strings list fin_maps.

Local Open Scope Z_scope.
Set Warnings "-register-all,-abstract-large-number".

(** ** Exceptions and results *)

Inductive exn : Type :=
  | ValueError
  | NotImplementedError
  | TypeError
  | KeyError
  | IndexError
  | AttributeError
  | UnboundLocalError.

Inductive res (A : Type) : Type :=
  | Ok (a : A)
  | Raise (e : exn).
Arguments Ok {A} a.
Arguments Raise {A} e.

Definition res_bind {A B} (r : res A) (k : A → res B) : res B :=
  match r with
  | Ok a => k a
  | Raise e => Raise e
  end.

Declare Scope res_scope.
Delimit Scope res_scope with res.
Notation "'try' x ':=' r 'in' k" := (res_bind r (fun x => k))
  (at level 10, x pattern, r at level 100, k at level 200) : res_scope.

(** ** Python strings *)

Module PyStr.

Definition nl : string := String "010"%char EmptyString.
Definition dq : string := String "034"%char EmptyString.

(** [str.isspace] on one character, which is also the class [\s] of a
    [str] pattern: 9 to 13, 28 to 32, 133 and 160. *)
Definition is_space (c : ascii) : bool :=
  let n := N.to_nat (N_of_ascii c) in
  ((9 <=? n)%nat && (n <=? 13)%nat) || ((28 <=? n)%nat && (n <=? 32)%nat)
  || (n =? 133)%nat || (n =? 160)%nat.

Definition is_nl (c : ascii) : bool := Ascii.eqb c "010"%char.
Definition any_char (_ : ascii) : bool := true.
Definition not_nl (c : ascii) : bool := negb (is_nl c).
Definition is_backtick (c : ascii) : bool := Ascii.eqb c "`"%char.

(** [strip_prefix p s] is [Some r] when [s = p ++ r]. *)
Fixpoint strip_prefix (p s : string) : option string :=
  match p with
  | EmptyString => Some s
  | String a p' =>
      match s with
      | EmptyString => None
      | String b s' => if Ascii.eqb a b then strip_prefix p' s' else None
      end
  end.

Definition startswith (p s : string) : bool :=
  match strip_prefix p s with Some _ => true | None => false end.

(** [sub in s] *)
Fixpoint contains (sub s : string) : bool :=
  if startswith sub s then true
  else match s with
       | EmptyString => false
       | String _ s' => contains sub s'
       end.

Fixpoint lstrip_by (p : ascii → bool) (s : string) : string :=
  match s with
  | EmptyString => EmptyString
  | String c s' => if p c then lstrip_by p s' else s
  end.

Fixpoint rstrip_by (p : ascii → bool) (s : string) : string :=
  match s with
  | EmptyString => EmptyString
  | String c s' =>
      match rstrip_by p s' with
      | EmptyString => if p c then EmptyString else String c EmptyString
      | r => String c r
      end
  end.

Definition strip_by (p : ascii → bool) (s : string) : string :=
  rstrip_by p (lstrip_by p s).

(** [s.strip()] *)
Definition strip (s : string) : string := strip_by is_space s.

(** [s[:n]] for [n >= 0] *)
Fixpoint str_take (n : nat) (s : string) : string :=
  match n, s with
  | S n', String c s' => String c (str_take n' s')
  | _, _ => EmptyString
  end.

Fixpoint str_drop (n : nat) (s : string) : string :=
  match n, s with
  | S n', String _ s' => str_drop n' s'
  | _, _ => s
  end.

(** [s[start:stop]] with Python's treatment of negative and out-of-range
    bounds. *)
Definition clamp_index (len i : Z) : Z :=
  let j := if i <? 0 then i + len else i in
  if j <? 0 then 0 else if len <? j then len else j.

Definition str_slice (s : string) (start stop : Z) : string :=
  let len := Z.of_nat (String.length s) in
  let a := clamp_index len start in
  let b := clamp_index len stop in
  if a <? b then str_take (Z.to_nat (b - a)) (str_drop (Z.to_nat a) s)
  else EmptyString.

(** [s.find(c)] and [s.rfind(c)] for a one-character needle. *)
Fixpoint find_char (c : ascii) (s : string) : Z :=
  match s with
  | EmptyString => -1
  | String a s' =>
      if Ascii.eqb a c then 0
      else let r := find_char c s' in if r <? 0 then -1 else r + 1
  end.

Fixpoint rfind_char (c : ascii) (s : string) : Z :=
  match s with
  | EmptyString => -1
  | String a s' =>
      let r := rfind_char c s' in
      if 0 <=? r then r + 1
      else if Ascii.eqb a c then 0 else -1
  end.

(** [s.split(sep)] for a non-empty [sep]: the pieces between the
    occurrences of [sep] found scanning from the left.  [cur] is the
    piece being read; the fuel is the length of what is left. *)
Fixpoint split_go (fuel : nat) (sep cur s : string) : list string :=
  match fuel with
  | O => [cur +:+ s]
  | S f =>
      match s with
      | EmptyString => [cur]
      | String c s' =>
          match strip_prefix sep s with
          | Some rest => cur :: split_go f sep EmptyString rest
          | None => split_go f sep (cur +:+ String c EmptyString) s'
          end
      end
  end.

Definition str_split (sep s : string) : list string :=
  split_go (String.length s) sep EmptyString s.

(** [pieces[-1]] of a list of strings that is never empty. *)
Definition last_piece (l : list string) : string := List.last l EmptyString.

(** [s.replace(old, new)] *)
Fixpoint replace_go (fuel : nat) (old new s : string) : string :=
  match fuel with
  | O => s
  | S f =>
      match s with
      | EmptyString => EmptyString
      | String c s' =>
          match strip_prefix old s with
          | Some rest => new +:+ replace_go f old new rest
          | None => String c (replace_go f old new s')
          end
      end
  end.

Fixpoint interleave (new s : string) : string :=
  match s with
  | EmptyString => new
  | String c s' => new +:+ String c (interleave new s')
  end.

Definition str_replace (old new s : string) : string :=
  match old with
  | EmptyString => interleave new s
  | _ => replace_go (String.length s) old new s
  end.

End PyStr.

(** ** The fragment of [re] the two modules use

    A pattern is a sequence of atoms; [Group] is a capturing group around
    a starred class, greedy or lazy.  [match_here]
    tries the alternatives in the order of a backtracking matcher and
    returns the captured groups. *)

Module Re.
Import PyStr.

Inductive atom : Type :=
  | Lit (s : string)
  | One (c : ascii → bool)
  | Star (c : ascii → bool)
  | Group (greedy : bool) (c : ascii → bool).

Definition cons_capture (a : ascii) (r : option (list string))
  : option (list string) :=
  match r with
  | Some (cap :: rest) => Some (String a cap :: rest)
  | _ => None
  end.

Definition open_capture (r : option (list string)) : option (list string) :=
  match r with
  | Some rest => Some (EmptyString :: rest)
  | None => None
  end.

Fixpoint match_here (p : list atom) : string → option (list string) :=
  match p with
  | [] => fun _ => Some []
  | Lit l :: p' => fun s =>
      match strip_prefix l s with
      | Some s' => match_here p' s'
      | None => None
      end
  | One c :: p' => fun s =>
      match s with
      | String a s' => if c a then match_here p' s' else None
      | EmptyString => None
      end
  | Star c :: p' =>
      fix star (s : string) : option (list string) :=
        match s with
        | String a s' =>
            if c a then
              match star s' with
              | Some r => Some r
              | None => match_here p' s
              end
            else match_here p' s
        | EmptyString => match_here p' s
        end
  | Group true c :: p' =>
      fix grp (s : string) : option (list string) :=
        match s with
        | String a s' =>
            if c a then
              match cons_capture a (grp s') with
              | Some r => Some r
              | None => open_capture (match_here p' s)
              end
            else open_capture (match_here p' s)
        | EmptyString => open_capture (match_here p' s)
        end
  | Group false c :: p' =>
      fix grp (s : string) : option (list string) :=
        match open_capture (match_here p' s) with
        | Some r => Some r
        | None =>
            match s with
            | String a s' => if c a then cons_capture a (grp s') else None
            | EmptyString => None
            end
        end
  end.

(** [re.match(p, s)]: a match at the start of [s]. *)
Definition re_match (p : list atom) (s : string) : option (list string) :=
  match_here p s.

(** [re.search(p, s)]: the leftmost position with a match. *)
Fixpoint re_search (p : list atom) (s : string) : option (list string) :=
  match match_here p s with
  | Some g => Some g
  | None =>
      match s with
      | String _ s' => re_search p s'
      | EmptyString => None
      end
  end.

End Re.

(** ** Python objects

    The values [json.loads] returns and the endpoint documentation
    dictionaries of the reduced specification.  A [dict] is an
    association list in insertion order with distinct keys. *)

Module Py.
Import PyStr.

Inductive pyval : Type :=
  | PNone
  | PBool (b : bool)
  | PInt (z : Z)
  | PStr (s : string)
  | PList (l : list pyval)
  | PDict (d : list (string * pyval)).

Fixpoint dict_get (k : string) (d : list (string * pyval)) : option pyval :=
  match d with
  | [] => None
  | (k', v) :: d' => if String.eqb k k' then Some v else dict_get k d'
  end.

(** [d[k] = v]: in place when the key is there, appended otherwise. *)
Fixpoint dict_set (k : string) (v : pyval) (d : list (string * pyval))
  : list (string * pyval) :=
  match d with
  | [] => [(k, v)]
  | (k', v') :: d' =>
      if String.eqb k k' then (k', v) :: d' else (k', v') :: dict_set k v d'
  end.

Fixpoint dict_pop (k : string) (d : list (string * pyval))
  : list (string * pyval) :=
  match d with
  | [] => []
  | (k', v') :: d' =>
      if String.eqb k k' then d' else (k', v') :: dict_pop k d'
  end.

Definition is_str (k : string) (v : pyval) : bool :=
  match v with
  | PStr s => String.eqb k s
  | _ => false
  end.

(** [k in v] for a string [k] *)
Definition py_contains (k : string) (v : pyval) : res bool :=
  match v with
  | PDict d => Ok (match dict_get k d with Some _ => true | None => false end)
  | PStr s => Ok (contains k s)
  | PList l => Ok (existsb (is_str k) l)
  | _ => Raise TypeError
  end.

(** [v[k]] for a string [k] *)
Definition py_getitem (v : pyval) (k : string) : res pyval :=
  match v with
  | PDict d =>
      match dict_get k d with
      | Some x => Ok x
      | None => Raise KeyError
      end
  | _ => Raise TypeError
  end.

(** [v[k] = x], returning the object after the store *)
Definition py_setitem (v : pyval) (k : string) (x : pyval) : res pyval :=
  match v with
  | PDict d => Ok (PDict (dict_set k x d))
  | _ => Raise TypeError
  end.

(** [v.get(k, default)] *)
Definition py_get (v : pyval) (k : string) (default : pyval) : res pyval :=
  match v with
  | PDict d =>
      Ok (match dict_get k d with Some x => x | None => default end)
  | _ => Raise AttributeError
  end.

(** [v + s] for a string [s] *)
Definition py_add_str (v : pyval) (s : string) : res string :=
  match v with
  | PStr a => Ok (a +:+ s)
  | _ => Raise TypeError
  end.

(** the receiver of a [str] method *)
Definition str_method (v : pyval) : res string :=
  match v with
  | PStr s => Ok s
  | _ => Raise AttributeError
  end.

(** a [str] argument of [str.replace] or of [str + _] *)
Definition str_arg (v : pyval) : res string :=
  match v with
  | PStr s => Ok s
  | _ => Raise TypeError
  end.

Definition truthy (v : pyval) : bool :=
  match v with
  | PNone => false
  | PBool b => b
  | PInt z => negb (z =? 0)
  | PStr s => negb (String.eqb s EmptyString)
  | PList l => match l with [] => false | _ => true end
  | PDict d => match d with [] => false | _ => true end
  end.

Definition is_none (v : pyval) : bool :=
  match v with PNone => true | _ => false end.

(** The object reached from [v] through the keys of [path] is replaced
    by [f] of it: the effect of [v[k1]...[kn][k] = x] on the tree of
    dictionaries below [v]. *)
Fixpoint update_path (v : pyval) (path : list string)
  (f : pyval → res pyval) : res pyval :=
  match path with
  | [] => f v
  | k :: rest =>
      (try sub := py_getitem v k in
       try sub' := update_path sub rest f in
       py_setitem v k sub')%res
  end.

Fixpoint get_path (v : pyval) (path : list string) : res pyval :=
  match path with
  | [] => Ok v
  | k :: rest => (try sub := py_getitem v k in get_path sub rest)%res
  end.

End Py.

(** ** The Action Parser: [Caller._get_action_and_input] *)

Module ActionParser.
Import PyStr Re.

Definition marker : string := "Execution Result:".

(** The pattern of the parser under [re.DOTALL]: the literal
    [Operation:], white space, a lazy group of any characters, newlines,
    the literal [Input:], white space, a greedy group of any characters. *)
Definition action_regex : list atom :=
  [Lit "Operation:"; Star is_space; Group false any_char; Star is_nl;
   Lit "Input:"; Star is_space; Group true any_char].

(** [match.group(n)] *)
Definition group (n : nat) (m : list string) : string :=
  nth (pred n) m EmptyString.

Definition supported : list string := ["GET"; "POST"; "DELETE"; "PUT"].

Definition str_in (s : string) (l : list string) : bool :=
  existsb (String.eqb s) l.

Definition brace_slice (action_input : string) : string :=
  let left_bracket := find_char "{"%char action_input in
  let right_bracket := rfind_char "}"%char action_input in
  str_slice action_input left_bracket (right_bracket + 1).

Definition _get_action_and_input (llm_output : string)
  : res (string * string) :=
  if contains marker llm_output then
    Ok ("DONE", strip (last_piece (str_split marker llm_output)))
  else
    match re_search action_regex llm_output with
    | None => Raise ValueError
    | Some m =>
        let action := strip (group 1 m) in
        let action_input := group 2 m in
        if negb (str_in action supported) then Raise NotImplementedError
        else
          let action_input := strip_by is_backtick (strip action_input) in
          Ok (action, brace_slice action_input)
    end.

End ActionParser.

(** ** The world of one run

    What the Caller and the Orchestrator exchange with their
    collaborators, the log of those exchanges, and the state a run
    threads: the reduced specification (whose documentation dictionaries
    are shared, mutable objects), the collaborators' own state and the
    log. *)

Module World.
Import Py.

(** [ReducedOpenAPISpec]: the servers and the [(name, summary, docs)]
    triples.  The [docs] of the triple at position [i] is the object that
    every reference [i] denotes. *)
Record api_spec : Type := {
  servers : list pyval;
  endpoints : list (string * string * pyval)
}.

(** the variables of [CALLER_PROMPT] and the stop sequences *)
Record caller_prompt : Type := {
  cp_api_url : pyval;
  cp_api_docs : string;
  cp_api_plan : string;
  cp_background : string;
  cp_stop : list string
}.

(** the calls on [requests_wrapper]; [ReqGet url None] is the call
    without the [params] keyword *)
Inductive http_request : Type :=
  | ReqGet (url : pyval) (params : option pyval)
  | ReqPost (url params data : pyval)
  | ReqPut (url params data : pyval)
  | ReqDelete (url params json : pyval).

(** what the wrapper hands back: a [requests.models.Response], a [str],
    or an object of another type *)
Inductive http_response : Type :=
  | Response (status_code : Z) (text : string)
  | RespStr (s : string)
  | RespOther.

(** the construction of the response parser and its invocation *)
Record parser_call : Type := {
  pc_api_path : string;
  pc_api_doc : pyval;
  pc_query : pyval;
  pc_response_description : pyval;
  pc_params : pyval;
  pc_data : pyval;
  pc_json : string
}.

Definition history : Type := list (string * string).

(** The log of a run: the calls on the collaborators with their answers,
    the invocations of the Caller and the tests of a plan for the
    completion phrase. *)
Inductive event : Type :=
  | EvPlanner (query : string) (h : history) (plan : string)
  | EvSelector (plan background api_plan : string)
  | EvCaller (api_plan background : string)
  | EvShouldEnd (plan : string)
  | EvLLM (p : caller_prompt) (output : string)
  | EvHTTP (r : http_request) (response : http_response)
  | EvParser (c : parser_call) (result : string).

Record state (W : Type) : Type := {
  st_spec : api_spec;
  st_world : W;
  st_trace : list event
}.
Arguments st_spec {W} s.
Arguments st_world {W} s.
Arguments st_trace {W} s.
Arguments Build_state {W} _ _ _.

(** State and exceptions: a computation returns a value or raises, and
    leaves a state either way. *)
Definition M (W A : Type) : Type := state W → res A * state W.

Definition ret {W A} (a : A) : M W A := fun s => (Ok a, s).

Definition bind {W A B} (m : M W A) (k : A → M W B) : M W B :=
  fun s =>
    match m s with
    | (Ok a, s') => k a s'
    | (Raise e, s') => (Raise e, s')
    end.

Definition lift {W A} (r : res A) : M W A := fun s => (r, s).

Definition get_spec {W} : M W api_spec := fun s => (Ok (st_spec s), s).

Definition put_spec {W} (sp : api_spec) : M W unit :=
  fun s => (Ok tt, Build_state sp (st_world s) (st_trace s)).

(** a call on a collaborator: logged, answered from the collaborator's
    state, which it may change *)
Definition ask {W Q A} (oracle : W → Q → A * W) (ev : Q → A → event)
  (q : Q) : M W A :=
  fun s =>
    let '(a, w) := oracle (st_world s) q in
    (Ok a, Build_state (st_spec s) w (st_trace s ++ [ev q a])).

Declare Scope m_scope.
Delimit Scope m_scope with M.
Notation "'perform' x ':=' m 'in' k" := (bind m (fun x => k))
  (at level 10, x pattern, m at level 100, k at level 200) : m_scope.

(** the documentation object behind a reference; a missing key of
    [endpoint_docs_by_name] is Python's [None] *)
Definition deref (sp : api_spec) (r : option nat) : pyval :=
  match r with
  | Some i =>
      match endpoints sp !! i with
      | Some (_, _, docs) => docs
      | None => PNone
      end
  | None => PNone
  end.

(** a store through a reference changes the object in the specification *)
Definition store (sp : api_spec) (r : option nat) (docs : pyval) : api_spec :=
  match r with
  | Some i =>
      match endpoints sp !! i with
      | Some (name, summary, _) =>
          {| servers := servers sp;
             endpoints := <[i := (name, summary, docs)]> (endpoints sp) |}
      | None => sp
      end
  | None => sp
  end.

(** a computation moves every state along the relation [R] *)
Definition follows {W} (R : state W → state W → Prop) {A} (m : M W A)
  : Prop :=
  ∀ s, R s (m s).2.

(** the log grows by allowed events *)
Definition extends {W} (allowed : event → Prop) (s s' : state W) : Prop :=
  ∃ tr, st_trace s' = st_trace s ++ tr ∧ Forall allowed tr.

(** the specification is left as it was *)
Definition same_spec {W} (s s' : state W) : Prop := st_spec s' = st_spec s.

(** the events of one execution step; the body handed to the response
    parser is within the character budget *)
Definition caller_event (e : event) : Prop :=
  match e with
  | EvLLM _ _ | EvHTTP _ _ => True
  | EvParser c _ => (String.length (pc_json c) ≤ 7500)%nat
  | _ => False
  end.

End World.

(** ** The Caller: [model/caller.py] *)

Module Caller.
Import PyStr Py ActionParser World.

Local Open Scope m_scope.

(** the fields of a [Caller] that [_call] reads; [endpoint_docs_by_name]
    maps a name to a reference to the documentation object *)
Record caller : Type := {
  scenario : string;
  with_response : bool;
  endpoint_docs_by_name : gmap string nat
}.

(** [{name: docs for name, _, docs in self.api_spec.endpoints}] *)
Fixpoint index_from (i : nat) (eps : list (string * string * pyval))
  (m : gmap string nat) : gmap string nat :=
  match eps with
  | [] => m
  | (name, _, _) :: rest => index_from (S i) rest (<[name := i]> m)
  end.

(** [Caller.__init__] *)
Definition init (sp : api_spec) (scen : string) (with_resp : bool) : caller :=
  {| scenario := scen;
     with_response := with_resp;
     endpoint_docs_by_name := index_from 0 (endpoints sp) ∅ |}.

(** [inputs] of [_call]: [api_plan] and the optional [background] *)
Record caller_inputs : Type := {
  in_api_plan : string;
  in_background : option string
}.

(** what [_get_response] returns: the bare text of a response whose
    status is not 200, or the five-tuple *)
Inductive get_response_ret : Type :=
  | RetText (text : string)
  | RetTuple (response_text : string) (params request_body desc query : pyval).

(** [a, b, c, d, e = r]: a five-tuple unpacks to its components, a string
    to its characters when it has exactly five of them *)
Definition unpack5 (r : get_response_ret)
  : res (string * pyval * pyval * pyval * pyval) :=
  match r with
  | RetTuple t p b d q => Ok (t, p, b, d, q)
  | RetText (String a (String b (String c (String d
      (String e EmptyString))))) =>
      Ok (String a EmptyString, PStr (String b EmptyString),
          PStr (String c EmptyString), PStr (String d EmptyString),
          PStr (String e EmptyString))
  | RetText _ => Raise ValueError
  end.

(** [l[0]] and [l[-1]] on what the matcher returned *)
Definition first_entry (r : option (list string)) : res string :=
  match r with
  | None => Raise TypeError
  | Some [] => Raise IndexError
  | Some (x :: _) => Ok x
  end.

Definition last_entry (l : list string) : res string :=
  match List.last (map Some l) None with
  | Some x => Ok x
  | None => Raise IndexError
  end.

(** the stop sequences built from [observation_prefix] *)
Definition observation_prefix : string := "Observation: ".
Definition _stop : list string :=
  [nl +:+ rstrip_by is_space observation_prefix;
   nl +:+ String "009"%char (rstrip_by is_space observation_prefix)].

Section WithCollaborators.

Variable W : Type.
(** [utils.get_matched_endpoint]: [None] or a list of endpoint names *)
Variable get_matched_endpoint : api_spec → string → option (list string).
(** [json.loads]: [None] stands for [JSONDecodeError] *)
Variable json_loads : string → option pyval.
Variable yaml_dump : pyval → string.
(** the tokenizer of [tiktoken.encoding_for_model] *)
Variable encode : string → list nat.
Variable decode : list nat → string.
Variable llm_invoke : W → caller_prompt → string * W.
Variable requests_wrapper : W → http_request → http_response * W.
Variable parser_invoke : W → parser_call → string * W.

Definition loads (s : string) : res pyval :=
  match json_loads s with
  | Some v => Ok v
  | None => Raise ValueError
  end.

Definition http (r : http_request) : M W http_response :=
  ask requests_wrapper EvHTTP r.

(** [Caller._get_response] *)
Definition _get_response (action action_input : string)
  : M W get_response_ret :=
  perform data := lift (loads action_input) in
  perform desc := lift (py_get data "description" (PStr "No description")) in
  perform query := lift (py_get data "output_instructions" PNone) in
  perform sent :=
    (if String.eqb action "GET" then
       perform has_params := lift (py_contains "params" data) in
       if has_params : bool then
         perform params := lift (py_get data "params" PNone) in
         perform url := lift (py_get data "url" PNone) in
         perform response := http (ReqGet url (Some params)) in
         ret (response, params, PNone)
       else
         perform url := lift (py_get data "url" PNone) in
         perform response := http (ReqGet url None) in
         ret (response, PNone, PNone)
     else if String.eqb action "POST" then
       perform params := lift (py_get data "params" PNone) in
       perform request_body := lift (py_get data "data" PNone) in
       perform url := lift (py_getitem data "url") in
       perform response := http (ReqPost url params request_body) in
       ret (response, params, request_body)
     else if String.eqb action "PUT" then
       perform params := lift (py_get data "params" PNone) in
       perform request_body := lift (py_get data "data" PNone) in
       perform url := lift (py_getitem data "url") in
       perform response := http (ReqPut url params request_body) in
       ret (response, params, request_body)
     else if String.eqb action "DELETE" then
       perform params := lift (py_get data "params" PNone) in
       perform request_body := lift (py_get data "data" PNone) in
       perform url := lift (py_getitem data "url") in
       perform response := http (ReqDelete url params request_body) in
       ret (response, params, request_body)
     else lift (Raise NotImplementedError)) in
  let '(response, params, request_body) := sent in
  match response with
  | Response status_code text =>
      if negb (status_code =? 200) then ret (RetText text)
      else ret (RetTuple text params request_body desc query)
  | RespStr text => ret (RetTuple text params request_body desc query)
  | RespOther => lift (Raise NotImplementedError)
  end.

(** The reshaping of the copied documentation in [_prepare_api_docs]:
    the response schema is flattened to its properties, and the
    responses are dropped unless [with_response]. *)
Definition flatten_responses (tmp_docs : pyval) : res pyval :=
  (try has_responses := py_contains "responses" tmp_docs in
   if has_responses : bool then
     try responses := py_getitem tmp_docs "responses" in
     try has_content := py_contains "content" responses in
     if has_content : bool then
       try content := py_getitem responses "content" in
       try has_json := py_contains "application/json" content in
       if has_json : bool then
         try props := get_path content
                        ["application/json"; "schema"; "properties"] in
         py_setitem tmp_docs "responses" props
       else
         try has_utf8 :=
           py_contains "application/json; charset=utf-8" content in
         if has_utf8 : bool then
           try props := get_path content
                          ["application/json; charset=utf-8"; "schema";
                           "properties"] in
           py_setitem tmp_docs "responses" props
         else Ok tmp_docs
     else Ok tmp_docs
   else Ok tmp_docs)%res.

Definition drop_responses (with_resp : bool) (tmp_docs : pyval) : res pyval :=
  (if negb with_resp then
     try has_responses := py_contains "responses" tmp_docs in
     if has_responses : bool then
       match tmp_docs with
       | PDict d => Ok (PDict (dict_pop "responses" d))
       | PList _ => Raise TypeError
       | _ => Raise AttributeError
       end
     else Ok tmp_docs
   else Ok tmp_docs)%res.

(** [if len(encoded_docs) > 1500: tmp_docs = encoder.decode(encoded_docs[:1500])] *)
Definition truncate_docs (text : string) : string :=
  let encoded_docs := encode text in
  if (1500 <? length encoded_docs)%nat then decode (take 1500 encoded_docs)
  else text.

Definition docs_header (endpoint_name : string) : string :=
  "== Docs for " +:+ endpoint_name +:+ " == " +:+ nl.

(** [Caller._prepare_api_docs] *)
Definition _prepare_api_docs (self : caller) (api_plan : string)
  : M W (string * pyval) :=
  perform sp := get_spec in
  perform api_url :=
    lift (match servers sp with
          | [] => Raise IndexError
          | server :: _ => py_getitem server "url"
          end) in
  match get_matched_endpoint sp api_plan with
  | None => ret (EmptyString, PStr EmptyString)
  | Some matched_endpoints =>
      perform endpoint_name := lift (last_entry matched_endpoints) in
      let tmp_docs :=
        deref sp (endpoint_docs_by_name self !! endpoint_name) in
      perform tmp_docs := lift (flatten_responses tmp_docs) in
      perform tmp_docs := lift (drop_responses (with_response self) tmp_docs) in
      let tmp_docs := truncate_docs (yaml_dump tmp_docs) in
      ret (docs_header endpoint_name +:+ tmp_docs +:+ nl, api_url)
  end.

(** the search type read from the [type=] parameter of the URL; [None]
    when the loop ends without binding [search_type] *)
Fixpoint type_in_url (params_in_url : list string) : option string :=
  match params_in_url with
  | [] => None
  | param :: rest =>
      if contains "type=" param then
        Some (last_piece (str_split "=" param) +:+ "s")
      else type_in_url rest
  end.

Definition search_type_of (params : pyval) (action_input : string)
  : res (option string) :=
  (try has_type :=
     (if negb (is_none params) then py_contains "type" params
      else Ok false) in
   if has_type : bool then
     try t := py_getitem params "type" in
     try search_type := py_add_str t "s" in
     Ok (Some search_type)
   else
     try data := loads action_input in
     try url := py_getitem data "url" in
     try url := str_method url in
     Ok (type_in_url (str_split "&" url)))%res.

Definition schema_path : list string :=
  ["responses"; "content"; "application/json"; "schema"].

(** The narrowing of the search schema in [_call]: the right-hand side
    is read through the reference, then the [properties] of the schema
    object are stored through the same reference. *)
Definition narrow_search_schema (api_doc_for_parser : option nat)
  (params : pyval) (action_input : string) : M W unit :=
  perform search_type := lift (search_type_of params action_input) in
  perform search_type :=
    lift (match search_type with
          | Some t => Ok t
          | None => Raise UnboundLocalError
          end) in
  perform sp := get_spec in
  let doc := deref sp api_doc_for_parser in
  perform kept :=
    lift (get_path doc (schema_path ++ ["properties"; search_type])) in
  perform doc' :=
    lift (update_path doc schema_path
            (fun schema =>
               py_setitem schema "properties" (PDict [(search_type, kept)]))) in
  put_spec (store sp api_doc_for_parser doc').

Definition or_default (v : pyval) (default : string) : pyval :=
  if truthy v then v else PStr default.

(** [Caller._call] *)
Definition _call (self : caller) (inputs : caller_inputs) : M W string :=
  let api_plan := in_api_plan inputs in
  perform prepared := _prepare_api_docs self api_plan in
  let '(api_doc_for_caller, api_url) := prepared in
  perform caller_chain_output :=
    ask llm_invoke EvLLM
      {| cp_api_url := api_url;
         cp_api_docs := api_doc_for_caller;
         cp_api_plan := api_plan;
         cp_background := default EmptyString (in_background inputs);
         cp_stop := _stop |} in
  perform parsed := lift (_get_action_and_input caller_chain_output) in
  let '(action, action_input) := parsed in
  if String.eqb action "DONE" then ret action_input
  else
    perform returned := _get_response action action_input in
    perform unpacked := lift (unpack5 returned) in
    let '(response, params, request_body, desc, query) := unpacked in
    let response := str_take 7500 response in
    perform data := lift (loads action_input) in
    perform url := lift (py_getitem data "url") in
    perform url := lift (str_method url) in
    perform api_url_text := lift (str_arg api_url) in
    let called_endpoint_name :=
      action +:+ " " +:+ str_replace api_url_text EmptyString url in
    perform sp := get_spec in
    perform called_endpoint_name :=
      lift (first_entry (get_matched_endpoint sp called_endpoint_name)) in
    let api_path :=
      api_url_text +:+ last_piece (str_split " " called_endpoint_name) in
    let api_doc_for_parser :=
      endpoint_docs_by_name self !! called_endpoint_name in
    perform endpoint_name :=
      lift (first_entry (get_matched_endpoint sp api_plan)) in
    perform _ :=
      (if String.eqb (scenario self) "spotify"
          && String.eqb endpoint_name "GET /search"
       then narrow_search_schema api_doc_for_parser params action_input
       else ret tt) in
    perform sp := get_spec in
    perform parsing_res :=
      ask parser_invoke EvParser
        {| pc_api_path := api_path;
           pc_api_doc := deref sp api_doc_for_parser;
           pc_query := query;
           pc_response_description := desc;
           pc_params := or_default params "No parameters";
           pc_data := or_default request_body "No request body";
           pc_json := response |} in
    ret (caller_chain_output +:+ nl +:+ "Observation: " +:+ parsing_res).

End WithCollaborators.

(** What [_call] returns, read from the calls it has logged: the text of
    the done signal after the completion call alone, or, after the three
    calls, the completion followed by a newline, [Observation: ] and the
    answer of the response parser.  A step that has logged anything else
    has not returned. *)
Definition step_result (tr : list event) : option string :=
  match tr with
  | [EvLLM _ caller_chain_output] =>
      match _get_action_and_input caller_chain_output with
      | Ok (action, action_input) =>
          if String.eqb action "DONE" then Some action_input else None
      | Raise _ => None
      end
  | [EvLLM _ caller_chain_output; EvHTTP _ _; EvParser _ parsing_res] =>
      Some (caller_chain_output +:+ nl +:+ "Observation: " +:+ parsing_res)
  | _ => None
  end.

End Caller.

(** ** The Orchestrator: [model/rest_gpt.py] *)

Module RestGPT.
Import PyStr Py Re World.

Local Open Scope m_scope.

(** the fields of a [RestGPT] that [_call] reads *)
Record restgpt : Type := {
  scenario : string;
  max_iterations : option Z;
  max_execution_time : option Q
}.

Definition Qltb (x y : Q) : bool := negb (Qle_bool y x).

(** [RestGPT._should_continue] *)
Definition _should_continue (self : restgpt) (iterations : Z)
  (time_elapsed : Q) : bool :=
  let has_remaining_iterations :=
    match max_iterations self with
    | None => true
    | Some n => iterations <? n
    end in
  let has_remaining_time :=
    match max_execution_time self with
    | None => true
    | Some t => Qltb time_elapsed t
    end in
  has_remaining_iterations && has_remaining_time.

(** [RestGPT._get_api_selector_background] *)
Definition _get_api_selector_background (planner_history : history) : string :=
  match planner_history with
  | [] => "No background"
  | step :: rest =>
      fold_left (fun acc s => acc +:+ nl +:+ s.2) rest step.2
  end.

(** [RestGPT._should_end] *)
Definition _should_end (plan : string) : bool := contains "Final Answer" plan.

(** the pattern of a selector refusal: the literal [No API call needed],
    one character that is not a newline, a greedy group of characters
    that are not newlines *)
Definition no_call_regex : list atom :=
  [Lit "No API call needed"; One not_nl; Group true not_nl].

(** What one pass logs between the selector and the planner, and the
    result it records: nothing and the text of the refusal, or the
    invocation of the Caller, the events of its step and the result the
    step returned. *)
Inductive acted (background api_plan : string)
  : list event → string → Prop :=
  | acted_refusal (m : list string) :
      re_match no_call_regex api_plan = Some m →
      acted background api_plan [] (ActionParser.group 1 m)
  | acted_call (inner : list event) (res : string) :
      re_match no_call_regex api_plan = None →
      Forall caller_event inner →
      Caller.step_result inner = Some res →
      acted background api_plan (EvCaller api_plan background :: inner) res.

(** how the observation of the loop ends: the loop returns a history and
    a plan, the Caller raises, or the fuel runs out while the loop is
    running *)
Inductive ending : Type :=
  | Returned (h : history) (plan : string)
  | Raised
  | Running.

(** The log of the loop from an iteration count, an elapsed time, a
    history and a plan to its ending.  The loop stops without a pass
    only when the budget is exhausted.  Each pass starts within the
    budget and logs the selector on the current plan, what it did, the
    planner on the history with the new entry at its end, and the test
    of the plan the planner answered; the loop goes on, with one more
    iteration, only when the test fails.  A pass in which the Caller
    raises ends the log before the planner is asked. *)
Inductive passes (self : restgpt) (query background : string)
  : Z → Q → history → string → list event → ending → Prop :=
  | passes_stop (iterations : Z) (time_elapsed : Q) (h : history)
      (plan : string) :
      _should_continue self iterations time_elapsed = false →
      passes self query background iterations time_elapsed h plan []
        (Returned h plan)
  | passes_cut (iterations : Z) (time_elapsed : Q) (h : history)
      (plan : string) :
      passes self query background iterations time_elapsed h plan []
        Running
  | passes_raise (iterations : Z) (time_elapsed : Q) (h : history)
      (plan api_plan : string) (inner : list event) :
      _should_continue self iterations time_elapsed = true →
      re_match no_call_regex api_plan = None →
      Forall caller_event inner →
      passes self query background iterations time_elapsed h plan
        (EvSelector plan background api_plan
           :: EvCaller api_plan background :: inner)
        Raised
  | passes_last (iterations : Z) (time_elapsed : Q) (h : history)
      (plan api_plan : string) (inner : list event) (res plan' : string) :
      _should_continue self iterations time_elapsed = true →
      acted background api_plan inner res →
      _should_end plan' = true →
      passes self query background iterations time_elapsed h plan
        (EvSelector plan background api_plan
           :: inner ++ [EvPlanner query (h ++ [(plan, res)]) plan';
                        EvShouldEnd plan'])
        (Returned (h ++ [(plan, res)]) plan')
  | passes_next (iterations : Z) (time_elapsed time_elapsed' : Q)
      (h : history) (plan api_plan : string) (inner : list event)
      (res plan' : string) (tr : list event) (out : ending) :
      _should_continue self iterations time_elapsed = true →
      acted background api_plan inner res →
      _should_end plan' = false →
      passes self query background (iterations + 1) time_elapsed'
        (h ++ [(plan, res)]) plan' tr out →
      passes self query background iterations time_elapsed h plan
        (EvSelector plan background api_plan
           :: inner ++ EvPlanner query (h ++ [(plan, res)]) plan'
           :: EvShouldEnd plan' :: tr)
        out.

(** the local variables of [_call] when it returns *)
Record run_state : Type := {
  rs_plan : string;
  rs_history : history;
  rs_iterations : Z;
  rs_time_elapsed : Q
}.

Section WithCollaborators.

Variable W : Type.
Variable get_matched_endpoint : api_spec → string → option (list string).
Variable json_loads : string → option pyval.
Variable yaml_dump : pyval → string.
Variable encode : string → list nat.
Variable decode : list nat → string.
Variable llm_invoke : W → caller_prompt → string * W.
Variable requests_wrapper : W → http_request → http_response * W.
Variable parser_invoke : W → parser_call → string * W.
(** [Planner.invoke] on the query and the history *)
Variable planner_invoke : W → string * history → string * W.
(** [APISelector.invoke] on the plan and the background *)
Variable api_selector_invoke : W → string * string → string * W.
(** [time.time()] *)
Variable time_time : W → Q * W.

Definition planner (query : string) (h : history) : M W string :=
  ask planner_invoke (fun q => EvPlanner q.1 q.2) (query, h).

Definition api_selector (plan background : string) : M W string :=
  ask api_selector_invoke (fun q => EvSelector q.1 q.2) (plan, background).

Definition clock : M W Q :=
  fun s =>
    let '(t, w) := time_time (st_world s) in
    (Ok t, Build_state (st_spec s) w (st_trace s)).

Definition log (e : event) : M W unit :=
  fun s => (Ok tt, Build_state (st_spec s) (st_world s) (st_trace s ++ [e])).

(** the construction of a [Caller] on the specification as it is now, and
    its invocation *)
Definition executor (self : restgpt) (api_plan background : string)
  : M W string :=
  perform _ := log (EvCaller api_plan background) in
  perform sp := get_spec in
  Caller._call W get_matched_endpoint json_loads yaml_dump encode decode
    llm_invoke requests_wrapper parser_invoke
    (Caller.init sp (scenario self) false)
    {| Caller.in_api_plan := api_plan;
       Caller.in_background := Some background |}.

(** One pass through the body of the [while] loop, from the selector to
    the planner: the history with the new entry and the next plan. *)
Definition iteration (self : restgpt) (query : string)
  (api_selector_background : string) (planner_history : history)
  (plan : string) : M W (history * string) :=
  perform api_plan := api_selector plan api_selector_background in
  let finished := re_match no_call_regex api_plan in
  perform execution_res :=
    match finished with
    | None => executor self api_plan api_selector_background
    | Some m => ret (ActionParser.group 1 m)
    end in
  let planner_history := planner_history ++ [(plan, execution_res)] in
  perform plan := planner query planner_history in
  ret (planner_history, plan).

(** The [while] loop of [_call].  [None] is returned when the fuel runs
    out before the loop ends. *)
Fixpoint loop (fuel : nat) (self : restgpt) (query : string)
  (start_time : Q) (api_selector_background : string)
  (planner_history : history) (iterations : Z) (time_elapsed : Q)
  (plan : string) : M W (option run_state) :=
  match fuel with
  | O => ret None
  | S fuel' =>
      if _should_continue self iterations time_elapsed then
        perform next :=
          iteration self query api_selector_background planner_history
            plan in
        let '(planner_history, plan) := next in
        perform _ := log (EvShouldEnd plan) in
        if _should_end plan then
          ret (Some {| rs_plan := plan; rs_history := planner_history;
                       rs_iterations := iterations;
                       rs_time_elapsed := time_elapsed |})
        else
          let iterations := iterations + 1 in
          perform now := clock in
          let time_elapsed := (now - start_time)%Q in
          loop fuel' self query start_time api_selector_background
            planner_history iterations time_elapsed plan
      else
        ret (Some {| rs_plan := plan; rs_history := planner_history;
                     rs_iterations := iterations;
                     rs_time_elapsed := time_elapsed |})
  end.

(** [_call] up to its [return]: the first planner call and the loop *)
Definition run (fuel : nat) (self : restgpt) (query : string)
  : M W (option run_state) :=
  let planner_history : history := [] in
  let iterations := 0 in
  let time_elapsed := 0%Q in
  perform start_time := clock in
  perform plan := planner query planner_history in
  let api_selector_background :=
    _get_api_selector_background planner_history in
  loop fuel self query start_time api_selector_background planner_history
    iterations time_elapsed plan.

(** [RestGPT._call]: the [result] of the dictionary it returns *)
Definition _call (fuel : nat) (self : restgpt) (query : string)
  : M W (option string) :=
  perform final := run fuel self query in
  ret (option_map rs_plan final).

End WithCollaborators.
End RestGPT.

(** ** A small instance

    A specification with three endpoints and table-driven collaborators,
    on which the definitions above are evaluated. *)

Module Demo.
Import PyStr Py World.

Definition quoted (s : string) : string := dq +:+ s +:+ dq.

Definition field (k v : string) : string := quoted k +:+ ": " +:+ quoted v.

Definition payload (url : string) : string :=
  "{" +:+ field "url" url +:+ ", " +:+ field "description" "the response"
  +:+ ", " +:+ field "output_instructions" "the ids" +:+ "}".

Definition loaded (url : string) : pyval :=
  PDict [("url", PStr url); ("description", PStr "the response");
         ("output_instructions", PStr "the ids")].

Definition base_url : string := "https://api.spotify.com/v1".
Definition search_url : string := base_url +:+ "/search?q=x&type=track".
Definition albums_url : string := base_url +:+ "/me/albums".
Definition me_url : string := base_url +:+ "/me".

Definition search_properties : pyval :=
  PDict [("tracks", PDict [("type", PStr "object")]);
         ("albums", PDict [("type", PStr "object")])].

Definition search_docs : pyval :=
  PDict [("description", PStr "Search for Item");
         ("responses",
          PDict [("content",
            PDict [("application/json",
              PDict [("schema",
                PDict [("properties", search_properties)])])])])].

Definition spec : api_spec :=
  {| servers := [PDict [("url", PStr base_url)]];
     endpoints :=
       [("GET /search", "Search for Item", search_docs);
        ("GET /me", "Get Current User's Profile",
         PDict [("description", PStr "the profile")]);
        ("GET /me/albums", "Get User's Saved Albums",
         PDict [("description", PStr "the saved albums")])] |}.

(** the endpoint names that occur in the text, in the order of the
    specification; no list when there is none *)
Definition get_matched_endpoint (sp : api_spec) (text : string)
  : option (list string) :=
  match filter (fun name => Is_true (contains name text))
               (map (fun e => e.1.1) (endpoints sp)) with
  | [] => None
  | l => Some l
  end.

Definition json_loads (s : string) : option pyval :=
  if String.eqb s (payload search_url) then Some (loaded search_url)
  else if String.eqb s (payload albums_url) then Some (loaded albums_url)
  else if String.eqb s (payload me_url) then Some (loaded me_url)
  else None.

Definition yaml_dump (_ : pyval) : string := "description: docs".

(** one token for each character *)
Fixpoint encode (s : string) : list nat :=
  match s with
  | EmptyString => []
  | String c s' => nat_of_ascii c :: encode s'
  end.

Fixpoint decode (l : list nat) : string :=
  match l with
  | [] => EmptyString
  | n :: l' => String (ascii_of_nat n) (decode l')
  end.

Definition operation (verb url : string) : string :=
  "Thought: call the endpoint" +:+ nl +:+ "Operation: " +:+ verb +:+ nl
  +:+ "Input: " +:+ payload url.

Definition search_plan : string := "GET /search to find the track x".
Definition albums_plan : string := "GET /me/albums to list the saved albums".
Definition me_plan : string := "GET /me to read the profile".
Definition unmatched_plan : string := "Play some music".
Definition done_plan : string := "GET /me once more".

Definition llm_invoke (w : unit) (p : caller_prompt) : string * unit :=
  let plan := cp_api_plan p in
  (if String.eqb plan search_plan then operation "GET" search_url
   else if String.eqb plan albums_plan then operation "GET" albums_url
   else if String.eqb plan me_plan then operation "GET" me_url
   else if String.eqb plan unmatched_plan then operation "GET" search_url
   else "Thought: nothing is left" +:+ nl +:+ "Execution Result: all done",
   w).

Definition url_of (r : http_request) : string :=
  match r with
  | ReqGet (PStr u) _ | ReqPost (PStr u) _ _ | ReqPut (PStr u) _ _
  | ReqDelete (PStr u) _ _ => u
  | _ => EmptyString
  end.

Definition requests_wrapper (w : unit) (r : http_request)
  : http_response * unit :=
  (if contains "/search" (url_of r) then RespStr "{tracks: [{id: 7}]}"
   else if contains "/albums" (url_of r) then Response 200 "{items: []}"
   else Response 404 "Not Found",
   w).

Definition parser_invoke (w : unit) (c : parser_call) : string * unit :=
  ("The answer read from " +:+ pc_json c, w).

(** the planner repeats the query as its first plan and answers once the
    history holds a result *)
Definition planner_invoke (w : unit) (q : string * history) : string * unit :=
  (match q.2 with
   | [] => q.1
   | _ => "Final Answer: done"
   end, w).

Definition api_selector_invoke (w : unit) (q : string * string)
  : string * unit :=
  (if contains "Final Answer" q.1 then "No API call needed. It is known."
   else search_plan, w).

Definition time_time (w : unit) : Q * unit := (0%Q, w).

Definition start : state unit :=
  {| st_spec := spec; st_world := tt; st_trace := [] |}.

Definition caller : Caller.caller := Caller.init spec "spotify" false.

Definition inputs (plan : string) : Caller.caller_inputs :=
  {| Caller.in_api_plan := plan; Caller.in_background := Some "No background" |}.

Definition call (plan : string) : M unit string :=
  Caller._call unit get_matched_endpoint json_loads yaml_dump encode decode
    llm_invoke requests_wrapper parser_invoke caller (inputs plan).

Definition agent (n : Z) : RestGPT.restgpt :=
  {| RestGPT.scenario := "spotify";
     RestGPT.max_iterations := Some n;
     RestGPT.max_execution_time := None |}.

Definition run (fuel : nat) (n : Z) (query : string)
  : M unit (option RestGPT.run_state) :=
  RestGPT.run unit get_matched_endpoint json_loads yaml_dump encode decode
    llm_invoke requests_wrapper parser_invoke planner_invoke
    api_selector_invoke time_time fuel (agent n) query.

Definition answer (fuel : nat) (n : Z) (query : string)
  : M unit (option string) :=
  RestGPT._call unit get_matched_endpoint json_loads yaml_dump encode decode
    llm_invoke requests_wrapper parser_invoke planner_invoke
    api_selector_invoke time_time fuel (agent n) query.

(** the state after the first planner call, and the loop from it *)
Definition planned (query : string) : state unit :=
  {| st_spec := spec; st_world := tt;
     st_trace := [EvPlanner query [] query] |}.

Definition loop (fuel : nat) (n : Z) (query : string)
  : M unit (option RestGPT.run_state) :=
  RestGPT.loop unit get_matched_endpoint json_loads yaml_dump encode decode
    llm_invoke requests_wrapper parser_invoke planner_invoke
    api_selector_invoke time_time fuel (agent n) query 0%Q "No background"
    [] 0 0%Q query.

(** the excerpt and the prompt of a step on this instance *)
Definition excerpt (endpoint_name : string) : string :=
  Caller.docs_header endpoint_name +:+ "description: docs" +:+ nl.

Definition prompt (docs api_plan api_url : string) : caller_prompt :=
  {| cp_api_url := PStr api_url;
     cp_api_docs := docs;
     cp_api_plan := api_plan;
     cp_background := "No background";
     cp_stop := Caller._stop |}.

End Demo.

(** ** The rest of the two modules

    The functions of [caller.py] and [rest_gpt.py] that the step and the
    loop do not call, and the vocabulary of the properties on the log. *)

Module Aux.
Import PyStr Py World.

(** [str(i)] for a natural number *)
Definition str_of_nat (i : nat) : string :=
  NilZero.string_of_uint (Nat.to_uint i).

(** The loop of [Caller._construct_scratchpad] from the index [i] on. *)
Fixpoint scratchpad_from (i : nat) (h : history) (scratchpad : string)
  : string :=
  match h with
  | [] => scratchpad
  | (plan, execution_res) :: rest =>
      let scratchpad :=
        scratchpad +:+ ("Thought " +:+ str_of_nat i +:+ ": " +:+ plan) in
      let scratchpad :=
        scratchpad +:+ (Caller.observation_prefix +:+ execution_res +:+ nl) in
      scratchpad_from (S i) rest scratchpad
  end.

(** [Caller._construct_scratchpad] *)
Definition _construct_scratchpad (h : history) : string :=
  if (length h =? 0)%nat then EmptyString
  else scratchpad_from 0 h EmptyString.

(** The scenario of [RestGPT.__init__]: the accepted spellings are
    brought to [tmdb] and [spotify], any other raises [ValueError]. *)
Definition init_scenario (scenario : string) : res string :=
  let scenario :=
    if ActionParser.str_in scenario ["TMDB"; "Tmdb"] then "tmdb"
    else scenario in
  let scenario :=
    if ActionParser.str_in scenario ["Spotify"] then "spotify"
    else scenario in
  if negb (ActionParser.str_in scenario ["tmdb"; "spotify"])
  then Raise ValueError
  else Ok scenario.

(** [RestGPT.save] *)
Definition save (file_path : string) : res unit := Raise ValueError.

(** the position of the last triple of the list that has the name *)
Fixpoint last_named (name : string) (eps : list (string * string * pyval))
  : option nat :=
  match eps with
  | [] => None
  | (n, _, _) :: rest =>
      match last_named name rest with
      | Some j => Some (S j)
      | None => if String.eqb n name then Some 0%nat else None
      end
  end.

(** the literal begins at a position of [pre] in [pre +:+ rest] *)
Fixpoint begins_inside (literal pre rest : string) : bool :=
  match pre with
  | EmptyString => false
  | String c pre' =>
      startswith literal (pre +:+ rest) || begins_inside literal pre' rest
  end.

(** the end of the pattern of the parser, from the newlines on *)
Definition input_pattern : list Re.atom :=
  [Re.Star is_nl; Re.Lit "Input:"; Re.Star is_space;
   Re.Group true any_char].

(** a character of an operation token that the pattern steps over: not
    white space, and not the first character of [Input:] *)
Definition plain (a : ascii) : bool :=
  negb (is_space a) && negb (Ascii.eqb a "I").

(** the events of the log that satisfy a test *)
Fixpoint count (p : event → bool) (tr : list event) : nat :=
  match tr with
  | [] => 0
  | e :: tr' => (if p e then 1 else 0) + count p tr'
  end.

Definition is_selector (e : event) : bool :=
  match e with EvSelector _ _ _ => true | _ => false end.

Definition is_caller (e : event) : bool :=
  match e with EvCaller _ _ => true | _ => false end.

Definition is_planner (e : event) : bool :=
  match e with EvPlanner _ _ _ => true | _ => false end.

(** the background an event of the Orchestrator carries is [background] *)
Definition carries (background : string) (e : event) : Prop :=
  match e with
  | EvSelector _ b _ | EvCaller _ b => b = background
  | _ => True
  end.

(** The log of one execution step: the completion call, then the HTTP
    request, then the response parser, cut where the step ended. *)
Inductive step_log (p : caller_prompt) : list event → Prop :=
  | step_none : step_log p []
  | step_llm output : step_log p [EvLLM p output]
  | step_http output request response :
      step_log p [EvLLM p output; EvHTTP request response]
  | step_parser output request response c answer :
      (String.length (pc_json c) ≤ 7500)%nat →
      step_log p [EvLLM p output; EvHTTP request response;
                  EvParser c answer].

End Aux.

(** ** More collaborators for the small instance *)

Module Cases.
Import PyStr Py World.

(** a completion whose input is not JSON *)
Definition broken_output : string :=
  "Operation: POST" +:+ nl +:+ "Input: {url: no quotes}".

Definition llm_broken (w : unit) (p : caller_prompt) : string * unit :=
  (broken_output, w).

(** [json.loads] on the empty object only *)
Definition loads_empty (s : string) : option pyval :=
  if String.eqb s "{}" then Some (PDict []) else None.

(** a selector that always asks for the profile, on which the wrapper of
    the instance answers 404 *)
Definition selector_profile (w : unit) (q : string * string)
  : string * unit :=
  (Demo.me_plan, w).

(** a planner that never answers *)
Definition planner_busy (w : unit) (q : string * history) : string * unit :=
  ("Continue", w).

(** a selector that always refuses *)
Definition selector_refuses (w : unit) (q : string * string)
  : string * unit :=
  ("No API call needed. Nothing to call.", w).

Definition broken_call : M unit string :=
  Caller._call unit Demo.get_matched_endpoint Demo.json_loads Demo.yaml_dump
    Demo.encode Demo.decode llm_broken Demo.requests_wrapper
    Demo.parser_invoke Demo.caller (Demo.inputs Demo.me_plan).

(** a specification whose JSON response content has no schema *)
Definition bare_docs : pyval :=
  PDict [("description", PStr "Search for Item");
         ("responses",
          PDict [("content",
            PDict [("application/json",
              PDict [("example", PStr "none")])])])].

Definition bare_spec : api_spec :=
  {| servers := [PDict [("url", PStr Demo.base_url)]];
     endpoints := [("GET /search", "Search for Item", bare_docs)] |}.

Definition bare_start : state unit :=
  {| st_spec := bare_spec; st_world := tt; st_trace := [] |}.

Definition bare_caller : Caller.caller := Caller.init bare_spec "spotify" false.

(** a serialiser whose text has 1600 characters, and so 1600 tokens of
    the instance *)
Fixpoint filled (n : nat) : string :=
  match n with
  | O => EmptyString
  | S n' => String "a" (filled n')
  end.

Definition yaml_long (_ : pyval) : string := filled 1600.

(** the loop of the instance with another planner and another selector *)
Definition loop_with
  (planner_invoke : unit → string * history → string * unit)
  (api_selector_invoke : unit → string * string → string * unit)
  (fuel : nat) (n : Z) (query : string) : M unit (option RestGPT.run_state) :=
  RestGPT.loop unit Demo.get_matched_endpoint Demo.json_loads Demo.yaml_dump
    Demo.encode Demo.decode Demo.llm_invoke Demo.requests_wrapper
    Demo.parser_invoke planner_invoke api_selector_invoke Demo.time_time
    fuel (Demo.agent n) query 0%Q "No background" [] 0 0%Q query.

End Cases.

(** * Properties *)

(** ** Strings *)

Module PyStrFacts.
Import PyStr.

Lemma append_nil_l (s : string) : EmptyString +:+ s = s.
Proof. reflexivity. Qed.

Lemma append_cons (c : ascii) (s t : string) :
  String c s +:+ t = String c (s +:+ t).
Proof. reflexivity. Qed.

Lemma append_empty_r (s : string) : s +:+ EmptyString = s.
Proof.
  induction s as [|c s IH]; [reflexivity|]. now rewrite append_cons, IH.
Qed.

Lemma append_assoc (a b c : string) : (a +:+ b) +:+ c = a +:+ (b +:+ c).
Proof.
  induction a as [|x a IH]; [reflexivity|]. now rewrite !append_cons, IH.
Qed.

Lemma length_append (a b : string) :
  String.length (a +:+ b) = (String.length a + String.length b)%nat.
Proof.
  induction a as [|x a IH]; [reflexivity|].
  rewrite append_cons. simpl. now rewrite IH.
Qed.

Lemma strip_prefix_Some (p s r : string) :
  strip_prefix p s = Some r → s = p +:+ r.
Proof.
  revert s; induction p as [|a p IH]; intros s H; simpl in *.
  - now inversion H.
  - destruct s as [|b s]; [discriminate|].
    destruct (Ascii.eqb a b) eqn:E; [|discriminate].
    apply Ascii.eqb_eq in E; subst b.
    rewrite append_cons. f_equal. now apply IH.
Qed.

Lemma strip_prefix_append (p r : string) : strip_prefix p (p +:+ r) = Some r.
Proof.
  induction p as [|a p IH]; [reflexivity|].
  rewrite append_cons. simpl. now rewrite Ascii.eqb_refl.
Qed.

Lemma contains_append (sub pre post : string) :
  contains sub (pre +:+ sub +:+ post) = true.
Proof.
  induction pre as [|c pre IH].
  - rewrite append_nil_l.
    assert (startswith sub (sub +:+ post) = true) as H
      by (unfold startswith; now rewrite strip_prefix_append).
    destruct (sub +:+ post); cbn [contains]; now rewrite H.
  - rewrite append_cons. cbn [contains]. rewrite IH.
    now destruct (startswith sub _).
Qed.

Lemma contains_empty_false (sep : string) :
  sep ≠ EmptyString → contains sep EmptyString = false.
Proof. destruct sep; [congruence | reflexivity]. Qed.

Lemma length_str_take (n : nat) (s : string) :
  (String.length (str_take n s) ≤ n)%nat.
Proof.
  revert s; induction n as [|n IH]; intros [|c s]; simpl; try lia.
  specialize (IH s). lia.
Qed.

Lemma split_go_nonempty (fuel : nat) (sep cur s : string) :
  split_go fuel sep cur s ≠ [].
Proof.
  revert cur s; induction fuel as [|f IH]; intros cur s; simpl; [easy|].
  destruct s as [|c s]; [easy|].
  destruct (strip_prefix sep (String c s)); [easy | apply IH].
Qed.

Lemma last_piece_cons (x : string) (l : list string) :
  l ≠ [] → last_piece (x :: l) = last_piece l.
Proof. destruct l; [congruence | reflexivity]. Qed.

(** The last piece of a split is what follows the last separator found,
    and holds no separator. *)
Lemma split_go_last (fuel : nat) (sep cur s : string) :
  sep ≠ EmptyString →
  (String.length s ≤ fuel)%nat →
  (contains sep s = false ∧ last_piece (split_go fuel sep cur s) = cur +:+ s)
  ∨ (∃ pre, s = pre +:+ sep +:+ last_piece (split_go fuel sep cur s)
            ∧ contains sep (last_piece (split_go fuel sep cur s)) = false).
Proof.
  intros Hsep; revert cur s; induction fuel as [|f IH]; intros cur s Hlen.
  - destruct s; simpl in Hlen; [|lia]. left; split; [|reflexivity].
    now apply contains_empty_false.
  - destruct s as [|c s].
    + left; split; [now apply contains_empty_false|].
      cbn [split_go]. unfold last_piece; cbn [List.last].
      now rewrite append_empty_r.
    + cbn [split_go]. destruct (strip_prefix sep (String c s)) as [rest|] eqn:E.
      * apply strip_prefix_Some in E.
        assert (String.length rest ≤ f)%nat as Hrest.
        { apply (f_equal String.length) in E. rewrite length_append in E.
          simpl in E, Hlen. destruct sep; [congruence|]. simpl in E. lia. }
        rewrite last_piece_cons by apply split_go_nonempty.
        destruct (IH EmptyString rest Hrest) as [[Hno Hl]|[pre [Hs Hno]]].
        -- right. exists EmptyString. rewrite append_nil_l in Hl |- *.
           rewrite Hl. split; [exact E | exact Hno].
        -- right. exists (sep +:+ pre). split; [|exact Hno].
           rewrite append_assoc, <- Hs. exact E.
      * simpl in Hlen.
        destruct (IH (cur +:+ String c EmptyString) s ltac:(lia))
          as [[Hno Hl]|[pre [Hs Hno]]].
        -- left. split.
           ++ cbn [contains]. unfold startswith. now rewrite E.
           ++ rewrite Hl, append_assoc. reflexivity.
        -- right. exists (String c pre). split; [|exact Hno].
           rewrite append_cons. now rewrite <- Hs.
Qed.

Lemma split_last_after (sep s : string) :
  sep ≠ EmptyString →
  contains sep s = true →
  ∃ pre, s = pre +:+ sep +:+ last_piece (str_split sep s)
         ∧ contains sep (last_piece (str_split sep s)) = false.
Proof.
  intros Hsep Hin. unfold str_split.
  destruct (split_go_last (String.length s) sep EmptyString s Hsep (le_n _))
    as [[Hno _]|H]; [congruence | exact H].
Qed.

End PyStrFacts.

(** ** The Action Parser *)

Module ActionParserFacts.
Import PyStr Re ActionParser PyStrFacts.

Lemma str_in_In (s : string) (l : list string) :
  str_in s l = true ↔ In s l.
Proof.
  unfold str_in. rewrite existsb_exists. split.
  - intros [x [Hx E]]. apply String.eqb_eq in E. now subst.
  - intros H. exists s. split; [exact H | apply String.eqb_refl].
Qed.

Lemma marker_nonempty : marker ≠ EmptyString.
Proof. discriminate. Qed.

(** A completion that holds the marker is a done signal, whose text is
    the stripped text after the last marker. *)
Lemma done_signal (llm_output : string) :
  contains marker llm_output = true →
  ∃ pre after,
    llm_output = pre +:+ marker +:+ after
    ∧ contains marker after = false
    ∧ _get_action_and_input llm_output = Ok ("DONE", strip after).
Proof.
  intros Hin.
  destruct (split_last_after marker llm_output marker_nonempty Hin)
    as [pre [Hs Hno]].
  exists pre, (last_piece (str_split marker llm_output)).
  split; [exact Hs|]. split; [exact Hno|].
  unfold _get_action_and_input. now rewrite Hin.
Qed.

(** An action that is not a done signal names one of the four verbs. *)
Lemma action_is_supported (llm_output action action_input : string) :
  contains marker llm_output = false →
  _get_action_and_input llm_output = Ok (action, action_input) →
  In action supported.
Proof.
  intros Hno. unfold _get_action_and_input. rewrite Hno.
  destruct (re_search action_regex llm_output) as [m|]; [|discriminate].
  destruct (str_in (strip (group 1 m)) supported) eqn:E; cbn [negb];
    [|discriminate].
  intros H. inversion H; subst. apply str_in_In. exact E.
Qed.

(** The completion of the specification's example: the fences around
    the input are stripped. *)
Example fenced_input (q := dq) :
  _get_action_and_input
    ("Operation: GET" +:+ nl +:+ "Input: ```{" +:+ q +:+ "url" +:+ q +:+ ":"
     +:+ q +:+ "a" +:+ q +:+ "}```")
  = Ok ("GET", "{" +:+ q +:+ "url" +:+ q +:+ ":" +:+ q +:+ "a" +:+ q +:+ "}").
Proof. reflexivity. Qed.

Example four_verbs_are_accepted :
  map (λ verb, _get_action_and_input
                 ("Operation: " +:+ verb +:+ nl +:+ "Input: {}"))
      ["GET"; "POST"; "DELETE"; "PUT"]
  = [Ok ("GET", "{}"); Ok ("POST", "{}"); Ok ("DELETE", "{}");
     Ok ("PUT", "{}")].
Proof. reflexivity. Qed.

Example other_tokens_are_rejected :
  map (λ verb, _get_action_and_input
                 ("Operation: " +:+ verb +:+ nl +:+ "Input: {}"))
      ["PATCH"; "get"; "OPTIONS"; ""]
  = [Raise NotImplementedError; Raise NotImplementedError;
     Raise NotImplementedError; Raise NotImplementedError].
Proof. reflexivity. Qed.

Example no_operation_is_a_parse_error :
  _get_action_and_input "I cannot do that." = Raise ValueError.
Proof. reflexivity. Qed.

(** the marker wins over an operation that precedes it, and the last
    marker over the others *)
Example marker_after_operation :
  _get_action_and_input
    ("Operation: GET" +:+ nl +:+ "Input: {} Execution Result: a"
     +:+ nl +:+ "Execution Result:  b ")
  = Ok ("DONE", "b").
Proof. reflexivity. Qed.

(** C3, as the code has it: on a completion without the marker in which
    the pattern finds an operation and an input, the parser returns the
    action exactly when the stripped operation token is GET, POST, DELETE
    or PUT, and raises [NotImplementedError] for every other token. *)
Theorem operation_accepted_iff_supported (llm_output : string)
  (m : list string) :
  contains marker llm_output = false →
  re_search action_regex llm_output = Some m →
  let token := strip (group 1 m) in
  (In token ["GET"; "POST"; "DELETE"; "PUT"] →
   _get_action_and_input llm_output =
     Ok (token, brace_slice (strip_by is_backtick (strip (group 2 m)))))
  ∧ (¬ In token ["GET"; "POST"; "DELETE"; "PUT"] →
     _get_action_and_input llm_output = Raise NotImplementedError).
Proof.
  intros Hno Hm token. unfold _get_action_and_input. rewrite Hno, Hm.
  fold token. split; intros H.
  - apply (str_in_In token supported) in H. now rewrite H.
  - destruct (str_in token supported) eqn:E; [|reflexivity].
    apply str_in_In in E. contradiction.
Qed.

Lemma operation_accepted_iff_supported_witness :
  let llm_output := "Operation: GET" +:+ nl +:+ "Input: {}" in
  contains marker llm_output = false
  ∧ re_search action_regex llm_output = Some ["GET"; "{}"]
  ∧ _get_action_and_input llm_output = Ok ("GET", "{}").
Proof.
  split; [reflexivity|]. split; [reflexivity|].
  apply (operation_accepted_iff_supported
           ("Operation: GET" +:+ nl +:+ "Input: {}") ["GET"; "{}"]);
    [reflexivity | reflexivity | simpl; tauto].
Defined.

(** C3, as the claim states it, fails on PATCH: it is one of the five
    verbs of the claim, the pattern finds it, and the parser raises. *)
Lemma patch_is_not_accepted :
  let llm_output := "Operation: PATCH" +:+ nl +:+ "Input: {}" in
  contains marker llm_output = false
  ∧ re_search action_regex llm_output = Some ["PATCH"; "{}"]
  ∧ In "PATCH" ["GET"; "POST"; "PUT"; "DELETE"; "PATCH"]
  ∧ _get_action_and_input llm_output = Raise NotImplementedError.
Proof.
  split; [reflexivity|]. split; [reflexivity|].
  split; [simpl; tauto | reflexivity].
Qed.

(** C6, as the claim states it, fails: the text of the done signal is
    stripped, so it is not the text that follows the marker. *)
Lemma done_text_is_not_the_raw_suffix :
  let llm_output := "Execution Result: X" in
  contains marker llm_output = true
  ∧ _get_action_and_input llm_output = Ok ("DONE", "X")
  ∧ ¬ ∃ pre, llm_output = pre +:+ marker +:+ "X".
Proof.
  split; [reflexivity|]. split; [reflexivity|].
  intros [pre H].
  destruct pre as [|a [|b pre]]; [discriminate H | discriminate H |].
  apply (f_equal String.length) in H.
  rewrite !length_append in H. simpl in H. lia.
Qed.

End ActionParserFacts.

(** ** Computations that move the state along a preorder *)

Module FollowsFacts.
Import World.

Section Preorder.

Context {W : Type} (R : state W → state W → Prop) (allowed : event → Prop).
Hypothesis R_refl : ∀ s, R s s.
Hypothesis R_trans : ∀ a b c, R a b → R b c → R a c.
Hypothesis R_log :
  ∀ s w e, allowed e →
    R s (Build_state (st_spec s) w (st_trace s ++ [e])).

Lemma follows_ret {A} (a : A) : follows R (ret a).
Proof. intros s. apply R_refl. Qed.

Lemma follows_lift {A} (r : res A) : follows R (lift r).
Proof. intros s. apply R_refl. Qed.

Lemma follows_get_spec : follows R get_spec.
Proof. intros s. apply R_refl. Qed.

Lemma follows_bind {A B} (m : M W A) (k : A → M W B) :
  follows R m → (∀ a, follows R (k a)) → follows R (bind m k).
Proof.
  intros Hm Hk s. unfold bind. specialize (Hm s).
  destruct (m s) as [[a|e] s1]; simpl in *; [|exact Hm].
  eapply R_trans; [exact Hm | apply Hk].
Qed.

Lemma follows_ask {Q A} (oracle : W → Q → A * W) (ev : Q → A → event)
  (q : Q) :
  (∀ a, allowed (ev q a)) → follows R (ask oracle ev q).
Proof.
  intros Hev s. unfold ask.
  destruct (oracle (st_world s) q) as [a w]. simpl. now apply R_log.
Qed.

End Preorder.

Lemma extends_refl {W} allowed (s : state W) : extends allowed s s.
Proof. exists []. split; [now rewrite app_nil_r | constructor]. Qed.

Lemma extends_trans {W} allowed (a b c : state W) :
  extends allowed a b → extends allowed b c → extends allowed a c.
Proof.
  intros [t1 [E1 F1]] [t2 [E2 F2]]. exists (t1 ++ t2). split.
  - now rewrite E2, E1, app_assoc.
  - now apply Forall_app.
Qed.

Lemma extends_log {W} (allowed : event → Prop) (s : state W) w e :
  allowed e →
  extends allowed s (Build_state (st_spec s) w (st_trace s ++ [e])).
Proof. intros He. exists [e]. split; [reflexivity | now repeat constructor]. Qed.

End FollowsFacts.

(** ** The Caller *)

Module CallerFacts.
Import PyStr Py ActionParser World Caller FollowsFacts PyStrFacts.

Section WithCollaborators.

Variable W : Type.
Variable get_matched_endpoint : api_spec → string → option (list string).
Variable json_loads : string → option pyval.
Variable yaml_dump : pyval → string.
Variable encode : string → list nat.
Variable decode : list nat → string.
Variable llm_invoke : W → caller_prompt → string * W.
Variable requests_wrapper : W → http_request → http_response * W.
Variable parser_invoke : W → parser_call → string * W.

Abbreviation prepare :=
  (_prepare_api_docs W get_matched_endpoint yaml_dump encode decode).
Abbreviation get_response := (_get_response W json_loads requests_wrapper).
Abbreviation call :=
  (_call W get_matched_endpoint json_loads yaml_dump encode decode
     llm_invoke requests_wrapper parser_invoke).

Ltac follow R_refl R_trans :=
  repeat first
    [ apply (follows_ret _ R_refl)
    | apply (follows_lift _ R_refl)
    | apply (follows_get_spec _ R_refl)
    | apply (follows_bind _ R_trans); [|intros ?]
    | match goal with
      | |- follows _ (match ?x with _ => _ end) => destruct x
      end ].

Section Preorder.

Context (R : state W → state W → Prop) (allowed : event → Prop).
Hypothesis R_refl : ∀ s, R s s.
Hypothesis R_trans : ∀ a b c, R a b → R b c → R a c.
Hypothesis R_log :
  ∀ s w e, allowed e →
    R s (Build_state (st_spec s) w (st_trace s ++ [e])).
Hypothesis allowed_llm : ∀ p out, allowed (EvLLM p out).
Hypothesis allowed_http : ∀ r resp, allowed (EvHTTP r resp).
Hypothesis allowed_parser :
  ∀ c out, (String.length (pc_json c) ≤ 7500)%nat → allowed (EvParser c out).

Lemma prepare_follows self api_plan : follows R (prepare self api_plan).
Proof. unfold _prepare_api_docs. follow R_refl R_trans. Qed.

Lemma http_follows r : follows R (http W requests_wrapper r).
Proof.
  unfold http. apply (follows_ask R allowed R_log). apply allowed_http.
Qed.

Lemma get_response_follows action action_input :
  follows R (get_response action action_input).
Proof.
  unfold _get_response.
  repeat first
    [ apply http_follows
    | apply (follows_ret _ R_refl)
    | apply (follows_lift _ R_refl)
    | apply (follows_bind _ R_trans); [|intros ?]
    | match goal with
      | |- follows _ (match ?x with _ => _ end) => destruct x
      end ].
Qed.

(** [_call] follows [R] when the store of the narrowing does, which it
    has to only for the scenario that narrows *)
Lemma call_follows self inputs :
  (String.eqb (scenario self) "spotify" = true →
   ∀ s sp, R s (Build_state sp (st_world s) (st_trace s))) →
  follows R (call self inputs).
Proof.
  intros Hput. unfold _call.
  apply (follows_bind _ R_trans); [apply prepare_follows|].
  intros [api_doc_for_caller api_url].
  apply (follows_bind _ R_trans);
    [apply (follows_ask R allowed R_log); apply allowed_llm|].
  intros caller_chain_output.
  apply (follows_bind _ R_trans); [apply (follows_lift _ R_refl)|].
  intros [action action_input].
  destruct (String.eqb action "DONE"); [apply (follows_ret _ R_refl)|].
  apply (follows_bind _ R_trans); [apply get_response_follows|].
  intros returned.
  apply (follows_bind _ R_trans); [apply (follows_lift _ R_refl)|].
  intros [[[[response params] request_body] desc] query].
  do 4 (apply (follows_bind _ R_trans); [apply (follows_lift _ R_refl)|];
        intros ?).
  apply (follows_bind _ R_trans); [apply (follows_get_spec _ R_refl)|].
  intros sp.
  do 2 (apply (follows_bind _ R_trans); [apply (follows_lift _ R_refl)|];
        intros ?).
  apply (follows_bind _ R_trans).
  - destruct (String.eqb (scenario self) "spotify") eqn:Escen; cbn [andb];
      [|apply (follows_ret _ R_refl)].
    destruct (String.eqb _ "GET /search"); [|apply (follows_ret _ R_refl)].
    unfold narrow_search_schema.
    do 2 (apply (follows_bind _ R_trans); [apply (follows_lift _ R_refl)|];
          intros ?).
    apply (follows_bind _ R_trans); [apply (follows_get_spec _ R_refl)|].
    intros sp'.
    do 2 (apply (follows_bind _ R_trans); [apply (follows_lift _ R_refl)|];
          intros ?).
    intros s. unfold put_spec. simpl. now apply Hput.
  - intros _.
    apply (follows_bind _ R_trans); [apply (follows_get_spec _ R_refl)|].
    intros sp'.
    apply (follows_bind _ R_trans); [|intros ?; apply (follows_ret _ R_refl)].
    apply (follows_ask R allowed R_log). intros out.
    apply allowed_parser. cbn [pc_json]. apply length_str_take.
Qed.

End Preorder.

Lemma prepare_state self api_plan (s : state W) :
  (prepare self api_plan s).2 = s.
Proof.
  symmetry.
  apply (prepare_follows eq (λ s, eq_refl) (λ a b c, @eq_trans _ a b c)).
Qed.

Lemma call_trace self inputs (s : state W) :
  extends caller_event s (call self inputs s).2.
Proof.
  apply (call_follows (extends caller_event) caller_event
           (extends_refl _) (extends_trans _) (extends_log _));
    try (intros; exact I).
  - intros c out H. exact H.
  - intros _ s0 sp. exists []. split; [now rewrite app_nil_r | constructor].
Qed.

Lemma same_spec_log (s : state W) w e :
  True → same_spec s (Build_state (st_spec s) w (st_trace s ++ [e])).
Proof. reflexivity. Qed.

Lemma same_spec_trans (a b c : state W) :
  same_spec a b → same_spec b c → same_spec a c.
Proof. unfold same_spec. congruence. Qed.

Lemma get_response_same_spec action action_input (s : state W) :
  st_spec (get_response action action_input s).2 = st_spec s.
Proof.
  apply (get_response_follows same_spec (λ _, True) (λ s, eq_refl)
           same_spec_trans same_spec_log).
  intros; exact I.
Qed.

(** Outside the scenario that narrows, the specification is the same
    after the step. *)
Lemma call_same_spec self inputs (s : state W) :
  String.eqb (scenario self) "spotify" = false →
  st_spec (call self inputs s).2 = st_spec s.
Proof.
  intros Hscen.
  apply (call_follows same_spec (λ _, True) (λ s, eq_refl)
           same_spec_trans same_spec_log); try (intros; exact I).
  rewrite Hscen. discriminate.
Qed.

Abbreviation truncate := (truncate_docs encode decode).

(** The serialised documentation is kept whole when it has at most 1500
    tokens, and is otherwise the decoding of its first 1500 tokens. *)
Lemma truncate_docs_tokens (text : string) :
  let tokens := take 1500 (encode text) in
  (length tokens ≤ 1500)%nat
  ∧ tokens `prefix_of` encode text
  ∧ (((length (encode text) ≤ 1500)%nat
      ∧ truncate text = text ∧ encode text = tokens)
     ∨ ((1500 < length (encode text))%nat
        ∧ truncate text = decode tokens)).
Proof.
  intros tokens. split; [|split].
  - unfold tokens. rewrite length_take. lia.
  - exists (drop 1500 (encode text)). unfold tokens.
    now rewrite take_drop.
  - unfold truncate_docs, tokens.
    destruct (Nat.ltb_spec 1500 (length (encode text))) as [Hlt|Hle].
    + right. split; [exact Hlt | reflexivity].
    + left. split; [exact Hle|]. split; [reflexivity|].
      now rewrite take_ge.
Qed.

(** The excerpt of a matched step is the header of the last candidate,
    the truncated serialisation of its reshaped documentation and a
    newline. *)
Lemma prepare_matched self api_plan (s s1 : state W) names excerpt api_url :
  get_matched_endpoint (st_spec s) api_plan = Some names →
  prepare self api_plan s = (Ok (excerpt, api_url), s1) →
  ∃ endpoint_name shaped,
    last_entry names = Ok endpoint_name
    ∧ res_bind
        (flatten_responses
           (deref (st_spec s) (endpoint_docs_by_name self !! endpoint_name)))
        (drop_responses (with_response self)) = Ok shaped
    ∧ excerpt =
        docs_header endpoint_name +:+ truncate (yaml_dump shaped) +:+ nl.
Proof.
  intros Hm. unfold _prepare_api_docs, bind, get_spec, lift, ret.
  destruct (match servers (st_spec s) with
            | [] => Raise IndexError
            | server :: _ => py_getitem server "url"
            end) as [url|e]; [|discriminate].
  rewrite Hm.
  destruct (last_entry names) as [endpoint_name|e]; [|discriminate].
  destruct (flatten_responses
              (deref (st_spec s)
                 (endpoint_docs_by_name self !! endpoint_name)))
    as [d1|e] eqn:Hflat; [|discriminate].
  destruct (drop_responses (with_response self) d1) as [d2|e] eqn:Hdrop;
    [|discriminate].
  intros H. inversion H; subst. exists endpoint_name, d2.
  split; [reflexivity|]. unfold res_bind. rewrite Hflat.
  split; [exact Hdrop | reflexivity].
Qed.

(** C9: the excerpt of a matched endpoint is the header of the last
    candidate, a body and a newline.  The body is made from the
    documentation of that endpoint, reshaped and serialised: it is the
    serialisation itself when this has at most 1500 tokens, and the
    decoding of its first 1500 tokens otherwise, so that trailing
    content only is dropped; it has at most 1500 tokens when the
    tokenizer reads the decoded tokens back.  The header and the newline
    are put around the body after the cut and are not counted.  Every
    body handed to the response parser during a step has at most 7500
    characters. *)
Theorem excerpt_and_response_are_bounded self inputs (s : state W) :
  (∀ names excerpt api_url s1,
     get_matched_endpoint (st_spec s) (in_api_plan inputs) = Some names →
     prepare self (in_api_plan inputs) s = (Ok (excerpt, api_url), s1) →
     ∃ endpoint_name shaped tokens body,
       last_entry names = Ok endpoint_name
       ∧ res_bind
           (flatten_responses
              (deref (st_spec s)
                 (endpoint_docs_by_name self !! endpoint_name)))
           (drop_responses (with_response self)) = Ok shaped
       ∧ excerpt = docs_header endpoint_name +:+ body +:+ nl
       ∧ tokens = take 1500 (encode (yaml_dump shaped))
       ∧ (length tokens ≤ 1500)%nat
       ∧ tokens `prefix_of` encode (yaml_dump shaped)
       ∧ ((body = yaml_dump shaped ∧ encode body = tokens)
          ∨ ((1500 < length (encode (yaml_dump shaped)))%nat
             ∧ body = decode tokens))
       ∧ (encode (decode tokens) = tokens →
          (length (encode body) ≤ 1500)%nat))
  ∧ (∃ tr,
       st_trace (call self inputs s).2 = st_trace s ++ tr
       ∧ ∀ c out, In (EvParser c out) tr →
           (String.length (pc_json c) ≤ 7500)%nat).
Proof.
  split.
  - intros names excerpt api_url s1 Hm Hp.
    destruct (prepare_matched _ _ _ _ _ _ _ Hm Hp)
      as [endpoint_name [shaped [Hlast [Hshaped Hex]]]].
    destruct (truncate_docs_tokens (yaml_dump shaped))
      as [Hlen [Hpre Hcases]].
    exists endpoint_name, shaped,
      (take 1500 (encode (yaml_dump shaped))),
      (truncate (yaml_dump shaped)).
    repeat (split; [assumption || reflexivity|]).
    destruct Hcases as [[_ [Hb He]]|[Hlt Hb]].
    + split; [left; rewrite Hb; now split|].
      intros _. rewrite Hb, He. exact Hlen.
    + split; [right; now split|].
      intros Hback. rewrite Hb, Hback. exact Hlen.
  - destruct (call_trace self inputs s) as [tr [Htr Hall]].
    exists tr. split; [exact Htr|].
    intros c out Hin. rewrite Forall_forall in Hall.
    apply list_elem_of_In in Hin. exact (Hall _ Hin).
Qed.

(** C6, as the code has it: when the completion holds the marker, the
    parser emits the done signal whose text is the text after the last
    marker with the white space around it stripped, and the step returns
    that text having called the language model only: no HTTP request is
    logged. *)
Theorem done_signal_returns_without_request self inputs (s s1 : state W)
  excerpt api_url llm_output w :
  let prompt :=
    {| cp_api_url := api_url;
       cp_api_docs := excerpt;
       cp_api_plan := in_api_plan inputs;
       cp_background := default EmptyString (in_background inputs);
       cp_stop := _stop |} in
  prepare self (in_api_plan inputs) s = (Ok (excerpt, api_url), s1) →
  llm_invoke (st_world s) prompt = (llm_output, w) →
  contains marker llm_output = true →
  ∃ pre after,
    llm_output = pre +:+ marker +:+ after
    ∧ contains marker after = false
    ∧ _get_action_and_input llm_output = Ok ("DONE", strip after)
    ∧ call self inputs s =
        (Ok (strip after),
         Build_state (st_spec s) w
           (st_trace s ++ [EvLLM prompt llm_output])).
Proof.
  intros prompt Hp Hllm Hin.
  destruct (ActionParserFacts.done_signal llm_output Hin)
    as [pre [after [Hs [Hno Hparse]]]].
  exists pre, after. repeat (split; [assumption|]).
  assert (s1 = s) as -> by (rewrite <- (prepare_state self (in_api_plan inputs) s);
                            now rewrite Hp).
  unfold _call, bind. rewrite Hp. unfold ask. fold prompt. rewrite Hllm.
  unfold lift. rewrite Hparse. reflexivity.
Qed.

(** A bare text unpacks into five names only when it has five
    characters. *)
Lemma unpack5_text (text : string) :
  String.length text ≠ 5%nat → unpack5 (RetText text) = Raise ValueError.
Proof.
  destruct text as [|a [|b [|c [|d [|e [|f t]]]]]]; simpl; intros H;
    try reflexivity.
  congruence.
Qed.

(** When [_get_response] returns the bare text of a response, the step
    raises at the unpacking unless the text has five characters. *)
Lemma bare_text_is_unpacked self inputs (s s1 s2 : state W) excerpt api_url
  llm_output w action action_input text :
  let prompt :=
    {| cp_api_url := api_url;
       cp_api_docs := excerpt;
       cp_api_plan := in_api_plan inputs;
       cp_background := default EmptyString (in_background inputs);
       cp_stop := _stop |} in
  prepare self (in_api_plan inputs) s = (Ok (excerpt, api_url), s1) →
  llm_invoke (st_world s) prompt = (llm_output, w) →
  _get_action_and_input llm_output = Ok (action, action_input) →
  String.eqb action "DONE" = false →
  get_response action action_input
    (Build_state (st_spec s) w (st_trace s ++ [EvLLM prompt llm_output]))
  = (Ok (RetText text), s2) →
  String.length text ≠ 5%nat →
  call self inputs s = (Raise ValueError, s2).
Proof.
  intros prompt Hp Hllm Hparse Hdone Hget Hlen.
  assert (s1 = s) as -> by (rewrite <- (prepare_state self (in_api_plan inputs) s);
                            now rewrite Hp).
  unfold _call, bind. rewrite Hp. unfold ask. fold prompt. rewrite Hllm.
  unfold lift at 1. rewrite Hparse, Hdone, Hget.
  unfold lift. now rewrite (unpack5_text text Hlen).
Qed.

(** Without a match the preparation returns the two empty strings, or
    raises on the servers of the specification. *)
Lemma prepare_unmatched self api_plan (s : state W) :
  get_matched_endpoint (st_spec s) api_plan = None →
  prepare self api_plan s = (Ok (EmptyString, PStr EmptyString), s)
  ∨ ∃ e, prepare self api_plan s = (Raise e, s).
Proof.
  intros Hm. unfold _prepare_api_docs, bind, get_spec, lift, ret.
  destruct (match servers (st_spec s) with
            | [] => Raise IndexError
            | server :: _ => py_getitem server "url"
            end) as [url|e].
  - left. now rewrite Hm.
  - right. now exists e.
Qed.

(** A step whose plan has no match never returns once the completion is
    an action: the second resolution of the plan subscripts [None]. *)
Lemma unmatched_step_raises_unless_done self inputs (s : state W) :
  get_matched_endpoint (st_spec s) (in_api_plan inputs) = None →
  (∀ p, contains marker (llm_invoke (st_world s) p).1 = false) →
  ∃ e, (call self inputs s).1 = Raise e.
Proof.
  intros Hm Hllm. unfold _call, bind at 1.
  destruct (prepare_unmatched self (in_api_plan inputs) s Hm) as [Hp|[e Hp]];
    rewrite Hp; [|now exists e].
  unfold bind at 1, ask.
  match goal with |- context [llm_invoke (st_world s) ?p] =>
    specialize (Hllm p); destruct (llm_invoke (st_world s) p) as [out w]
  end.
  simpl in Hllm. unfold bind at 1, lift at 1.
  destruct (_get_action_and_input out) as [[action action_input]|e] eqn:Hparse;
    [|now exists e].
  pose proof (ActionParserFacts.action_is_supported _ _ _ Hllm Hparse) as Hsup.
  assert (String.eqb action "DONE" = false) as ->.
  { simpl in Hsup. destruct Hsup as [<-|[<-|[<-|[<-|[]]]]]; reflexivity. }
  unfold bind at 1.
  match goal with |- context [get_response action action_input ?s1] =>
    pose proof (get_response_same_spec action action_input s1) as Hspec;
    destruct (get_response action action_input s1) as [[returned|e] s2]
  end; [|now exists e].
  simpl in Hspec.
  unfold bind, lift, get_spec, ret.
  destruct (unpack5 returned) as [[[[[response params] body] desc] query]|e];
    [|now exists e].
  destruct (loads json_loads action_input) as [data|e]; [|now exists e].
  destruct (py_getitem data "url") as [url|e]; [|now exists e].
  destruct (str_method url) as [url_text|e]; [|now exists e].
  cbn [str_arg]. rewrite Hspec.
  destruct (first_entry (get_matched_endpoint (st_spec s) _)) as [called|e];
    [|now exists e].
  rewrite Hm. now exists TypeError.
Qed.

(** *** The calls of one step *)

Abbreviation narrow := (narrow_search_schema W json_loads).

Ltac crunch :=
  repeat match goal with
         | H : context [match ?x with _ => _ end] |- _ =>
             destruct x eqn:?; try discriminate
         | H : (_, _) = (_, _) |- _ => inversion H; subst; clear H
         | H : Ok _ = Ok _ |- _ => inversion H; subst; clear H
         end.

(** [_get_response] sends exactly one request when it returns, and at
    most one when it raises. *)
Lemma get_response_log action action_input (s s' : state W) r :
  get_response action action_input s = (r, s') →
  match r with
  | Ok _ => ∃ request response,
      st_trace s' = st_trace s ++ [EvHTTP request response]
  | Raise _ =>
      s' = s
      ∨ ∃ request, st_trace s' = st_trace s ++ [EvHTTP request RespOther]
  end.
Proof.
  unfold _get_response, bind, lift, ret, http, ask. intros H.
  crunch; cbn [st_trace];
    try (left; reflexivity); try (right; eexists; reflexivity);
    try (eexists; eexists; reflexivity).
Qed.

(** the narrowing logs nothing and calls no collaborator *)
Lemma narrow_log r params action_input (s s' : state W) res :
  narrow r params action_input s = (res, s') →
  st_trace s' = st_trace s ∧ st_world s' = st_world s.
Proof.
  unfold narrow_search_schema, bind, lift, get_spec, put_spec. intros H.
  crunch; split; reflexivity.
Qed.

(** One step is one completion call, then at most one HTTP request, then
    at most one invocation of the response parser.  A step that returns
    stopped on a done signal, whose text it returns, or made the three
    calls and returns the completion with the answer of the parser. *)
Lemma call_log self inputs (s s' : state W) r :
  call self inputs s = (r, s') →
  ∃ p tr,
    st_trace s' = st_trace s ++ tr
    ∧ Aux.step_log p tr
    ∧ cp_api_plan p = in_api_plan inputs
    ∧ cp_background p = default EmptyString (in_background inputs)
    ∧ cp_stop p = _stop
    ∧ match r with
      | Ok result =>
          (∃ output,
             tr = [EvLLM p output] ∧ contains marker output = true
             ∧ _get_action_and_input output = Ok ("DONE", result))
          ∨ (∃ output request response c answer,
               tr = [EvLLM p output; EvHTTP request response;
                     EvParser c answer]
               ∧ result = output +:+ nl +:+ "Observation: " +:+ answer)
      | Raise _ => ∀ c answer, ¬ In (EvParser c answer) tr
      end.
Proof.
  intros H.
  unfold _call in H. unfold bind at 1 in H.
  pose proof (Hprep := prepare_state self (in_api_plan inputs) s).
  destruct (prepare self (in_api_plan inputs) s)
    as [[[excerpt api_url]|e] s1]; cbn [snd] in Hprep; subst s1.
  2:{ inversion H; subst.
      exists {| cp_api_url := PNone; cp_api_docs := EmptyString;
                cp_api_plan := in_api_plan inputs;
                cp_background := default EmptyString (in_background inputs);
                cp_stop := _stop |}, [].
      rewrite app_nil_r. repeat (split; [reflexivity || constructor|]).
      intros c answer []. }
  unfold bind at 1, ask in H.
  match type of H with context [llm_invoke (st_world s) ?p] =>
    exists p; destruct (llm_invoke (st_world s) p) as [output w]
  end.
  unfold bind at 1, lift at 1 in H.
  destruct (_get_action_and_input output) as [[action action_input]|e]
    eqn:Hparse.
  2:{ inversion H; subst. eexists. split; [reflexivity|].
      repeat (split; [reflexivity || constructor|]).
      intros c answer [Hin|[]]. discriminate. }
  destruct (String.eqb action "DONE") eqn:Hdone.
  { inversion H; subst. eexists. split; [reflexivity|].
    repeat (split; [reflexivity || constructor|]).
    left. exists output. split; [reflexivity|].
    apply String.eqb_eq in Hdone. subst action.
    split; [|exact Hparse].
    destruct (contains marker output) eqn:Hm; [reflexivity|].
    pose proof (ActionParserFacts.action_is_supported _ _ _ Hm Hparse) as Hin.
    cbn [In supported] in Hin.
    destruct Hin as [Hin|[Hin|[Hin|[Hin|[]]]]]; discriminate. }
  unfold bind at 1 in H.
  match type of H with context [get_response action action_input ?s1] =>
    destruct (get_response action action_input s1) as [[returned|e] s2]
      eqn:Hget
  end; apply get_response_log in Hget; cbn [st_trace] in Hget.
  2:{ inversion H; subst.
      destruct Hget as [->|[request Hget]].
      - eexists. split; [reflexivity|].
        repeat (split; [reflexivity || constructor|]).
        intros c answer [Hin|[]]. discriminate.
      - eexists. split; [rewrite Hget, <- app_assoc; reflexivity|].
        repeat (split; [reflexivity || constructor|]).
        intros c answer [Hin|[Hin|[]]]; discriminate. }
  destruct Hget as [request [response Hget]].
  match goal with |- ?G =>
    assert (∀ e (s3 : state W),
              st_trace s3 = st_trace s2 → (Raise e, s3) = (r, s') → G)
      as Hraise
  end.
  { intros e s3 Htr Heq. inversion Heq; subst.
    eexists. split; [rewrite Htr, Hget, <- app_assoc; reflexivity|].
    repeat (split; [reflexivity || constructor|]).
    intros c answer [Hin|[Hin|[]]]; discriminate. }
  unfold bind, lift, get_spec in H.
  repeat match type of H with
         | context [match ?x with
                    | Ok _ => _
                    | Raise e => (Raise e, s2)
                    end] =>
             destruct x as [?|?] eqn:?;
               [|exact (Hraise _ _ eq_refl H)]
         | context [let '(_, _) := ?x in _] => is_var x; destruct x as [? ?]
         end.
  match type of H with
  | context [(if ?b then ?f else ?g) s2] =>
      destruct ((if b then f else g) s2) as [[[]|e] s3] eqn:Hnarrow
  end.
  - assert (st_trace s3 = st_trace s2) as Htr.
    { destruct (_ && _) in Hnarrow;
        [now apply narrow_log in Hnarrow|now inversion Hnarrow]. }
    unfold ask, ret in H. cbn [st_world st_spec st_trace] in H.
    match type of H with context [parser_invoke ?w0 ?c0] =>
      destruct (parser_invoke w0 c0) as [answer w3] eqn:Hp
    end.
    pose proof (f_equal fst H) as Hr. pose proof (f_equal snd H) as Hs.
    cbn [fst snd] in Hr, Hs. subst r s'. clear H.
    eexists. split; [cbn [st_trace]; rewrite Htr, Hget, <- !app_assoc;
                     reflexivity|].
    split; [constructor; cbn [pc_json]; apply length_str_take|].
    repeat (split; [reflexivity|]).
    right. repeat eexists.
  - assert (st_trace s3 = st_trace s2) as Htr.
    { destruct (_ && _) in Hnarrow;
        [now apply narrow_log in Hnarrow|now inversion Hnarrow]. }
    exact (Hraise _ _ Htr H).
Qed.

(** The result of a step that returns is the one read from its log. *)
Lemma call_result self inputs (s s' : state W) r :
  call self inputs s = (r, s') →
  ∃ tr,
    st_trace s' = st_trace s ++ tr
    ∧ Forall caller_event tr
    ∧ ∀ result, r = Ok result → step_result tr = Some result.
Proof.
  intros H.
  destruct (call_log _ _ _ _ _ H) as (p & tr & Htr & Hlog & _ & _ & _ & Hr).
  exists tr. split; [exact Htr|]. split.
  - destruct Hlog;
      repeat (constructor; [first [exact I | assumption]|]); constructor.
  - intros result ->.
    destruct Hr as [(output & -> & _ & Hparse)
                   |(output & request & response & c & answer & -> & ->)].
    + cbn [step_result]. now rewrite Hparse.
    + reflexivity.
Qed.

End WithCollaborators.

(** *** The step on the small instance *)

Lemma excerpt_and_response_are_bounded_witness :
  Demo.get_matched_endpoint Demo.spec Demo.search_plan = Some ["GET /search"]
  ∧ ∃ endpoint_name shaped tokens body,
      last_entry ["GET /search"] = Ok endpoint_name
      ∧ res_bind
          (flatten_responses
             (deref Demo.spec
                (endpoint_docs_by_name Demo.caller !! endpoint_name)))
          (drop_responses (with_response Demo.caller)) = Ok shaped
      ∧ Demo.excerpt "GET /search" = docs_header endpoint_name +:+ body +:+ nl
      ∧ tokens = take 1500 (Demo.encode (Demo.yaml_dump shaped))
      ∧ (length tokens ≤ 1500)%nat
      ∧ tokens `prefix_of` Demo.encode (Demo.yaml_dump shaped)
      ∧ ((body = Demo.yaml_dump shaped ∧ Demo.encode body = tokens)
         ∨ ((1500 < length (Demo.encode (Demo.yaml_dump shaped)))%nat
            ∧ body = Demo.decode tokens))
      ∧ (Demo.encode (Demo.decode tokens) = tokens →
         (length (Demo.encode body) ≤ 1500)%nat).
Proof.
  split; [reflexivity|].
  apply (proj1 (excerpt_and_response_are_bounded unit
                  Demo.get_matched_endpoint Demo.json_loads Demo.yaml_dump
                  Demo.encode Demo.decode Demo.llm_invoke
                  Demo.requests_wrapper Demo.parser_invoke Demo.caller
                  (Demo.inputs Demo.search_plan) Demo.start)
           ["GET /search"] (Demo.excerpt "GET /search")
           (PStr Demo.base_url) Demo.start);
    vm_compute; reflexivity.
Defined.

(** C9, as the claim states it, fails: on a documentation whose
    serialisation has 1600 tokens the body is cut to 1500 tokens, and
    the excerpt, with the header before it and the newline after it, has
    1529. *)
Lemma excerpt_exceeds_the_cap :
  let prepared :=
    _prepare_api_docs unit Demo.get_matched_endpoint Cases.yaml_long
      Demo.encode Demo.decode Demo.caller Demo.search_plan Demo.start in
  Demo.get_matched_endpoint Demo.spec Demo.search_plan = Some ["GET /search"]
  ∧ length (Demo.encode (Cases.yaml_long Demo.search_docs)) = 1600%nat
  ∧ ∃ excerpt,
      prepared = (Ok (excerpt, PStr Demo.base_url), Demo.start)
      ∧ excerpt
        = docs_header "GET /search"
          +:+ Demo.decode (take 1500 (Demo.encode (Cases.filled 1600)))
          +:+ nl
      ∧ length (Demo.encode excerpt) = 1529%nat
      ∧ ¬ (length (Demo.encode excerpt) ≤ 1500)%nat.
Proof.
  intros prepared. split; [reflexivity|]. split; [reflexivity|].
  eexists. split; [vm_compute; reflexivity|].
  split; [vm_compute; reflexivity|].
  split; [vm_compute; reflexivity|].
  vm_compute. intros Hle. apply Nat.leb_le in Hle. vm_compute in Hle.
  discriminate.
Qed.

Lemma done_signal_returns_without_request_witness :
  let output := "Thought: nothing is left" +:+ nl
                +:+ "Execution Result: all done" in
  let prompt := Demo.prompt (Demo.excerpt "GET /me") Demo.done_plan
                  Demo.base_url in
  contains marker output = true
  ∧ ∃ pre after,
      output = pre +:+ marker +:+ after
      ∧ contains marker after = false
      ∧ _get_action_and_input output = Ok ("DONE", strip after)
      ∧ Demo.call Demo.done_plan Demo.start =
          (Ok (strip after),
           Build_state Demo.spec tt [EvLLM prompt output]).
Proof.
  split; [reflexivity|].
  apply (done_signal_returns_without_request unit
           Demo.get_matched_endpoint Demo.json_loads Demo.yaml_dump
           Demo.encode Demo.decode Demo.llm_invoke
           Demo.requests_wrapper Demo.parser_invoke Demo.caller
           (Demo.inputs Demo.done_plan) Demo.start Demo.start
           (Demo.excerpt "GET /me") (PStr Demo.base_url)
           ("Thought: nothing is left" +:+ nl
            +:+ "Execution Result: all done") tt);
    vm_compute; reflexivity.
Defined.

(** C1 on a response of status 404: the plan is matched, the completion
    is a GET action, the wrapper hands back the response, and the step
    raises [ValueError] when the bare text is unpacked; the response
    parser is never reached. *)
Theorem not_found_response_raises :
  Demo.get_matched_endpoint Demo.spec Demo.me_plan = Some ["GET /me"]
  ∧ Demo.call Demo.me_plan Demo.start =
      (Raise ValueError,
       Build_state Demo.spec tt
         [EvLLM (Demo.prompt (Demo.excerpt "GET /me") Demo.me_plan
                   Demo.base_url)
            (Demo.operation "GET" Demo.me_url);
          EvHTTP (ReqGet (PStr Demo.me_url) None)
            (Response 404 "Not Found")]).
Proof. split; vm_compute; reflexivity. Qed.

(** C2 on a search step of the scenario that narrows: the step returns,
    and after it the documentation object of the endpoint in the
    specification holds the narrowed properties, so the specification is
    not the one the step started from. *)
Theorem search_narrowing_changes_the_index :
  let s' := (Demo.call Demo.search_plan Demo.start).2 in
  (∃ result, (Demo.call Demo.search_plan Demo.start).1 = Ok result)
  ∧ get_path (deref Demo.spec (Some 0%nat)) (schema_path ++ ["properties"])
    = Ok Demo.search_properties
  ∧ get_path (deref (st_spec s') (Some 0%nat)) (schema_path ++ ["properties"])
    = Ok (PDict [("tracks", PDict [("type", PStr "object")])])
  ∧ st_spec s' ≠ Demo.spec.
Proof.
  split; [vm_compute; eexists; reflexivity|].
  split; [reflexivity|]. split; [vm_compute; reflexivity|].
  vm_compute. discriminate.
Qed.

(** C4 on a plan without a match: the language model is prompted with
    the empty excerpt and the empty base URL, the request is sent, and
    the step raises [TypeError]. *)
Theorem unmatched_step_raises :
  Demo.get_matched_endpoint Demo.spec Demo.unmatched_plan = None
  ∧ Demo.call Demo.unmatched_plan Demo.start =
      (Raise TypeError,
       Build_state Demo.spec tt
         [EvLLM (Demo.prompt EmptyString Demo.unmatched_plan EmptyString)
            (Demo.operation "GET" Demo.search_url);
          EvHTTP (ReqGet (PStr Demo.search_url) None)
            (RespStr "{tracks: [{id: 7}]}")]).
Proof. split; vm_compute; reflexivity. Qed.

(** C5 on a plan and a called URL with two candidates: the excerpt of
    the prompt is that of the last candidate, the path and the
    documentation handed to the response parser are those of the
    first. *)
Theorem called_endpoint_is_the_first_candidate :
  Demo.get_matched_endpoint Demo.spec Demo.albums_plan
    = Some ["GET /me"; "GET /me/albums"]
  ∧ Demo.get_matched_endpoint Demo.spec "GET /me/albums"
    = Some ["GET /me"; "GET /me/albums"]
  ∧ ∃ prompt output request response c out,
      st_trace (Demo.call Demo.albums_plan Demo.start).2
        = [EvLLM prompt output; EvHTTP request response; EvParser c out]
      ∧ cp_api_docs prompt = Demo.excerpt "GET /me/albums"
      ∧ pc_api_path c = Demo.base_url +:+ "/me"
      ∧ pc_api_doc c = deref Demo.spec (Some 1%nat).
Proof.
  split; [reflexivity|]. split; [reflexivity|].
  vm_compute. repeat eexists.
Qed.

End CallerFacts.

(** ** The Orchestrator *)

Module RestGPTFacts.
Import PyStr Py Re World RestGPT FollowsFacts Aux.

(** *** The events of a pass *)

Lemma count_app p a b : count p (a ++ b) = (count p a + count p b)%nat.
Proof.
  induction a as [|e a IH]; [reflexivity|].
  rewrite <- app_comm_cons. cbn [count]. rewrite IH. lia.
Qed.

Lemma count_inner p inner :
  (∀ e, caller_event e → p e = false) →
  Forall caller_event inner → count p inner = 0%nat.
Proof.
  intros Hp. induction 1 as [|e inner He Hall IH]; [reflexivity|].
  cbn [count]. now rewrite (Hp e He), IH.
Qed.

Lemma count_acted p background api_plan inner res :
  (∀ e, caller_event e → p e = false) →
  acted background api_plan inner res →
  (count p inner ≤ 1)%nat.
Proof.
  intros Hp [m Hm|inner' res' Hm Hall Hres]; cbn [count]; [lia|].
  rewrite (count_inner p inner' Hp Hall). destruct (p _); lia.
Qed.

Lemma inner_no_planner inner query h plan :
  Forall caller_event inner → ¬ In (EvPlanner query h plan) inner.
Proof.
  intros Hall Hin. rewrite Forall_forall in Hall.
  apply list_elem_of_In in Hin. exact (Hall _ Hin).
Qed.

Lemma acted_no_planner background api_plan inner res query h plan :
  acted background api_plan inner res → ¬ In (EvPlanner query h plan) inner.
Proof.
  intros [m Hm|inner' res' Hm Hall Hres] Hin; [destruct Hin|].
  destruct Hin as [Heq|Hin]; [discriminate|].
  exact (inner_no_planner _ _ _ _ Hall Hin).
Qed.

Lemma acted_selectors background api_plan inner res :
  acted background api_plan inner res → count is_selector inner = 0%nat.
Proof.
  intros [m Hm|inner' res' Hm Hall Hres]; [reflexivity|].
  cbn [count is_selector]. apply count_inner; [|exact Hall].
  intros []; cbn; tauto.
Qed.

(** *** The passes of a log *)

(** Every history the planner is asked with during the passes extends
    the history they started from. *)
Lemma passes_planner self query background iterations time_elapsed h plan
  tr out :
  passes self query background iterations time_elapsed h plan tr out →
  ∀ q h' p, In (EvPlanner q h' p) tr → q = query ∧ h `prefix_of` h'.
Proof.
  induction 1
    as [iterations time_elapsed h plan Hc
       |iterations time_elapsed h plan
       |iterations time_elapsed h plan api_plan inner Hc Hm Hall
       |iterations time_elapsed h plan api_plan inner res plan' Hc Hact Hend
       |iterations time_elapsed time_elapsed' h plan api_plan inner res plan'
          tr out Hc Hact Hend Hp IH];
    intros q h' p Hin.
  - destruct Hin.
  - destruct Hin.
  - destruct Hin as [Heq|[Heq|Hin]]; try discriminate.
    destruct (inner_no_planner _ _ _ _ Hall Hin).
  - destruct Hin as [Heq|Hin]; [discriminate|].
    apply in_app_or in Hin as [Hin|[Heq|[Heq|[]]]]; try discriminate.
    + destruct (acted_no_planner _ _ _ _ _ _ _ Hact Hin).
    + inversion Heq; subst. split; [reflexivity|]. now exists [(plan, res)].
  - destruct Hin as [Heq|Hin]; [discriminate|].
    apply in_app_or in Hin as [Hin|[Heq|[Heq|Hin]]]; try discriminate.
    + destruct (acted_no_planner _ _ _ _ _ _ _ Hact Hin).
    + inversion Heq; subst. split; [reflexivity|]. now exists [(plan, res)].
    + destruct (IH _ _ _ Hin) as [Hq Hpre]. split; [exact Hq|].
      etransitivity; [|exact Hpre]. now exists [(plan, res)].
Qed.

(** The history a loop returns extends the history it started from. *)
Lemma passes_prefix self query background iterations time_elapsed h plan tr
  out :
  passes self query background iterations time_elapsed h plan tr out →
  ∀ h' final, out = Returned h' final → h `prefix_of` h'.
Proof.
  induction 1
    as [iterations time_elapsed h plan Hc
       |iterations time_elapsed h plan
       |iterations time_elapsed h plan api_plan inner Hc Hm Hall
       |iterations time_elapsed h plan api_plan inner res plan' Hc Hact Hend
       |iterations time_elapsed time_elapsed' h plan api_plan inner res plan'
          tr out Hc Hact Hend Hp IH];
    intros h' final Hout; try discriminate.
  - inversion Hout; subst. reflexivity.
  - inversion Hout; subst. now exists [(plan, res)].
  - etransitivity; [|exact (IH _ _ Hout)]. now exists [(plan, res)].
Qed.

(** After at least one pass, the history returned ends with the entry of
    the last pass, and the log ends with the planner call on that
    history and the test of the plan it answered, which is the plan
    returned. *)
Lemma passes_ends self query background iterations time_elapsed h plan tr
  out :
  passes self query background iterations time_elapsed h plan tr out →
  ∀ h' final, out = Returned h' final →
  tr ≠ [] →
  ∃ tr0 h0 plan0 res,
    h' = h0 ++ [(plan0, res)]
    ∧ tr = tr0 ++ [EvPlanner query h' final; EvShouldEnd final].
Proof.
  induction 1
    as [iterations time_elapsed h plan Hc
       |iterations time_elapsed h plan
       |iterations time_elapsed h plan api_plan inner Hc Hm Hall
       |iterations time_elapsed h plan api_plan inner res plan' Hc Hact Hend
       |iterations time_elapsed time_elapsed' h plan api_plan inner res plan'
          tr out Hc Hact Hend Hp IH];
    intros h' final Hout Hne; try discriminate.
  - congruence.
  - inversion Hout; subst.
    exists (EvSelector plan background api_plan :: inner), h, plan, res.
    split; reflexivity.
  - destruct tr as [|e tr].
    + inversion Hp; subst; try discriminate.
      match goal with
      | Heq : Returned _ _ = Returned _ _ |- _ => inversion Heq; subst
      end.
      exists (EvSelector plan background api_plan :: inner), h, plan, res.
      split; reflexivity.
    + destruct (IH _ _ Hout ltac:(discriminate))
        as [tr0 [h0 [p0 [res0 [Hh Htr]]]]].
      exists (EvSelector plan background api_plan
                :: inner ++ EvPlanner query (h ++ [(plan, res)]) plan'
                :: EvShouldEnd plan' :: tr0), h0, p0, res0.
      split; [exact Hh|]. rewrite Htr.
      cbn [app]. f_equal. rewrite <- app_assoc. reflexivity.
Qed.

Section WithCollaborators.

Variable W : Type.
Variable get_matched_endpoint : api_spec → string → option (list string).
Variable json_loads : string → option pyval.
Variable yaml_dump : pyval → string.
Variable encode : string → list nat.
Variable decode : list nat → string.
Variable llm_invoke : W → caller_prompt → string * W.
Variable requests_wrapper : W → http_request → http_response * W.
Variable parser_invoke : W → parser_call → string * W.
Variable planner_invoke : W → string * history → string * W.
Variable api_selector_invoke : W → string * string → string * W.
Variable time_time : W → Q * W.

Abbreviation executor' :=
  (executor W get_matched_endpoint json_loads yaml_dump encode decode
     llm_invoke requests_wrapper parser_invoke).
Abbreviation iteration' :=
  (iteration W get_matched_endpoint json_loads yaml_dump encode decode
     llm_invoke requests_wrapper parser_invoke planner_invoke
     api_selector_invoke).
Abbreviation loop' :=
  (loop W get_matched_endpoint json_loads yaml_dump encode decode
     llm_invoke requests_wrapper parser_invoke planner_invoke
     api_selector_invoke time_time).
Abbreviation run' :=
  (run W get_matched_endpoint json_loads yaml_dump encode decode
     llm_invoke requests_wrapper parser_invoke planner_invoke
     api_selector_invoke time_time).
Abbreviation call' :=
  (_call W get_matched_endpoint json_loads yaml_dump encode decode
     llm_invoke requests_wrapper parser_invoke planner_invoke
     api_selector_invoke time_time).

Ltac trace_eq :=
  repeat first [rewrite <- app_assoc | rewrite <- app_comm_cons];
  reflexivity.

(** An invocation of the Caller logs its start and then the events of
    its step, whether it returns or raises; the result it returns is the
    one read from these events. *)
Lemma executor_log self api_plan background (s s' : state W) r :
  executor' self api_plan background s = (r, s') →
  ∃ inner,
    st_trace s' = st_trace s ++ EvCaller api_plan background :: inner
    ∧ Forall caller_event inner
    ∧ ∀ res, r = Ok res → Caller.step_result inner = Some res.
Proof.
  unfold executor, bind, log, get_spec. cbn [fst snd].
  match goal with |- context [Caller._call _ _ _ _ _ _ _ _ _ ?c ?i ?s1] =>
    destruct (Caller._call _ _ _ _ _ _ _ _ _ c i s1) as [r1 s2] eqn:Hcall;
    apply CallerFacts.call_result in Hcall as (inner & Htr & Hall & Hres)
  end.
  cbn [st_trace] in Htr. exists inner.
  assert (r1 = r ∧ s2 = s') as [-> ->]
    by (destruct r1; inversion H; now subst).
  split; [rewrite Htr, <- app_assoc; reflexivity|].
  split; [exact Hall | exact Hres].
Qed.

(** One pass either raises inside the Caller, before the planner is
    asked again, or records its result at the end of the history and
    asks the planner with that history. *)
Lemma iteration_outcome self query background h plan (s s' : state W) r :
  iteration' self query background h plan s = (r, s') →
  ∃ api_plan,
    (∃ e inner,
       r = Raise e
       ∧ re_match no_call_regex api_plan = None
       ∧ st_trace s'
         = st_trace s ++ EvSelector plan background api_plan
             :: EvCaller api_plan background :: inner
       ∧ Forall caller_event inner)
    ∨ (∃ inner res plan',
         r = Ok (h ++ [(plan, res)], plan')
         ∧ acted background api_plan inner res
         ∧ st_trace s'
           = st_trace s ++ EvSelector plan background api_plan
               :: inner ++ [EvPlanner query (h ++ [(plan, res)]) plan']).
Proof.
  unfold iteration. unfold bind at 1. unfold api_selector, ask.
  destruct (api_selector_invoke (st_world s) (plan, background))
    as [api_plan w1].
  intros H. exists api_plan. cbn [fst snd] in H.
  destruct (re_match no_call_regex api_plan) as [m|] eqn:Hm.
  - right. unfold bind, ret, planner, ask in H.
    cbn [fst snd st_world st_trace st_spec] in H.
    destruct (planner_invoke w1 _) as [plan' w2].
    exists [], (ActionParser.group 1 m), plan'. inversion H; subst.
    split; [reflexivity|]. split; [now constructor|].
    cbn [st_trace]. now rewrite <- app_assoc.
  - unfold bind at 1 in H.
    match type of H with context [executor' self api_plan background ?s1] =>
      destruct (executor' self api_plan background s1) as [[res|e] s2] eqn:Hex
    end; apply executor_log in Hex as [inner [Htr [Hall Hres]]];
      cbn [st_trace] in Htr.
    + right. unfold bind, ret, planner, ask in H.
      destruct (planner_invoke (st_world s2) _) as [plan' w2].
      exists (EvCaller api_plan background :: inner), res, plan'.
      inversion H; subst.
      split; [reflexivity|].
      split; [constructor; [exact Hm | exact Hall | exact (Hres _ eq_refl)]|].
      cbn [st_trace]. rewrite Htr, <- !app_assoc. reflexivity.
    + left. exists e, inner. inversion H; subst.
      split; [reflexivity|]. split; [reflexivity|].
      split; [|exact Hall]. rewrite Htr, <- app_assoc. reflexivity.
Qed.

(** Whatever its outcome, the log of the loop is a sequence of passes
    with the ending of the outcome; the fuel runs out only after as many
    passes as there was fuel. *)
Lemma loop_passes fuel self query start_time background h iterations
  time_elapsed plan (s s' : state W) r :
  loop' fuel self query start_time background h iterations time_elapsed
    plan s = (r, s') →
  ∃ tr,
    st_trace s' = st_trace s ++ tr
    ∧ passes self query background iterations time_elapsed h plan tr
        match r with
        | Ok (Some final) => Returned (rs_history final) (rs_plan final)
        | Ok None => Running
        | Raise _ => Raised
        end
    ∧ (r = Ok None → count is_selector tr = fuel).
Proof.
  revert h iterations time_elapsed plan s.
  induction fuel as [|fuel IH]; intros h iterations time_elapsed plan s;
    cbn [loop].
  { unfold ret. intros H; inversion H; subst. exists [].
    split; [now rewrite app_nil_r|]. split; [constructor | reflexivity]. }
  destruct (_should_continue self iterations time_elapsed) eqn:Hc.
  2:{ unfold ret. intros H; inversion H; subst. exists [].
      split; [now rewrite app_nil_r|].
      split; [now constructor | discriminate]. }
  unfold bind at 1.
  destruct (iteration' self query background h plan s)
    as [[[h1 plan1]|e] s1] eqn:Hit;
    apply iteration_outcome in Hit
      as [api_plan [(e' & inner & He & Hm & Htr & Hall)
                   |(inner & res & p & Hr & Hact & Htr)]];
    try discriminate.
  - inversion Hr; subst h1 plan1; clear Hr.
    unfold bind at 1, log. cbn [fst snd st_spec st_world st_trace].
    destruct (_should_end p) eqn:Hend.
    + unfold ret. intros H; inversion H; subst; clear H.
      exists (EvSelector plan background api_plan
                :: inner ++ [EvPlanner query (h ++ [(plan, res)]) p;
                             EvShouldEnd p]).
      split; [cbn [st_trace]; rewrite Htr; trace_eq|].
      split; [now apply passes_last | discriminate].
    + unfold bind at 1, clock. cbn [st_spec st_world st_trace].
      destruct (time_time (st_world s1)) as [now w].
      intros H. apply IH in H as (tr & Htr' & Hp & Hcount).
      exists (EvSelector plan background api_plan
                :: inner ++ EvPlanner query (h ++ [(plan, res)]) p
                :: EvShouldEnd p :: tr).
      split; [rewrite Htr'; cbn [st_trace]; rewrite Htr; trace_eq|].
      split; [eapply passes_next; eassumption|].
      intros Hnone. cbn [count is_selector]. rewrite count_app.
      rewrite (acted_selectors _ _ _ _ Hact).
      cbn [count is_selector]. now rewrite (Hcount Hnone).
  - intros H; inversion H; subst.
    exists (EvSelector plan background api_plan
              :: EvCaller api_plan background :: inner).
    split; [exact Htr|]. split; [now apply passes_raise | discriminate].
Qed.

(** The log only grows during the loop. *)
Lemma loop_grows fuel self query start_time background h iterations
  time_elapsed plan (s : state W) :
  ∃ tr,
    st_trace (loop' fuel self query start_time background h iterations
                time_elapsed plan s).2 = st_trace s ++ tr.
Proof.
  revert h iterations time_elapsed plan s.
  induction fuel as [|fuel IH]; intros h iterations time_elapsed plan s;
    cbn [loop]; [exists []; now rewrite app_nil_r|].
  destruct (_should_continue self iterations time_elapsed);
    [|exists []; now rewrite app_nil_r].
  unfold bind at 1.
  destruct (iteration' self query background h plan s)
    as [[[h1 plan1]|e] s1] eqn:Hit;
    apply iteration_outcome in Hit
      as [api_plan [(e' & inner & He & _ & Htr & _)
                   |(inner & res & p & Hr & Hact & Htr)]];
    try discriminate; try (eexists; exact Htr).
  unfold bind at 1, log. cbn [fst snd st_spec st_world st_trace].
  destruct (_should_end plan1).
  - eexists. cbn [ret snd st_trace]. rewrite Htr, <- !app_assoc. reflexivity.
  - unfold bind at 1, clock. cbn [st_spec st_world st_trace].
    destruct (time_time (st_world s1)) as [now w].
    match goal with |- context [loop' fuel ?a ?b ?c ?d ?e ?f ?g ?i ?st] =>
      destruct (IH e f g i st) as [tr Htr']
    end.
    eexists. rewrite Htr'. cbn [st_trace]. rewrite Htr, <- !app_assoc.
    reflexivity.
Qed.

(** With an iteration ceiling the loop ends within the fuel: it never
    runs out when the fuel exceeds the iterations that are left. *)
Lemma loop_fuel_suffices fuel self query start_time background h iterations
  time_elapsed plan (s : state W) n :
  max_iterations self = Some n →
  (Z.to_nat (n - iterations) < fuel)%nat →
  (loop' fuel self query start_time background h iterations time_elapsed
     plan s).1 ≠ Ok None.
Proof.
  intros Hmax. revert h iterations time_elapsed plan s.
  induction fuel as [|fuel IH]; intros h iterations time_elapsed plan s Hlt;
    [lia|].
  cbn [loop]. unfold _should_continue. rewrite Hmax.
  destruct (Z.ltb_spec iterations n) as [Hi|Hi]; cbn [andb];
    [|discriminate].
  destruct (match max_execution_time self with
            | Some t => Qltb time_elapsed t
            | None => true
            end); [|discriminate].
  unfold bind at 1.
  destruct (iteration' self query background h plan s)
    as [[[h1 plan1]|e] s1]; [|discriminate].
  unfold bind at 1, log. cbn [fst snd].
  destruct (_should_end plan1); [discriminate|].
  unfold bind at 1, clock. cbn [st_spec st_world st_trace].
  destruct (time_time (st_world s1)) as [now w].
  apply IH. lia.
Qed.

(** C7: whatever the outcome of the loop, its log is a sequence of
    passes.  A pass starts only within the budget; the result it
    records, the text of the refusal of the selector or the result the
    step of the Caller returned, is put at the end of the history, the
    planner is asked with that history, and only the plan it answers is
    tested for the completion phrase; the loop goes on only when that
    test fails, and stops without a pass only when the budget is
    exhausted.  Every history the planner is asked with extends the
    history the loop started from.  When the loop returns, the history
    returned extends the one it started from and, after at least one
    pass, ends with the entry of the last pass, on which the plan
    returned was produced.  When the Caller raises, the passes before it
    are complete and the planner is not asked again.  The fuel runs out
    only after as many passes as there was fuel, and not at all when
    the fuel exceeds the iterations that an iteration ceiling leaves. *)
Theorem history_is_appended_before_planning fuel self query start_time
  background h iterations time_elapsed plan (s : state W) :
  let outcome :=
    loop' fuel self query start_time background h iterations time_elapsed
      plan s in
  ∃ tr,
    st_trace outcome.2 = st_trace s ++ tr
    ∧ (∀ q h' p, In (EvPlanner q h' p) tr → q = query ∧ h `prefix_of` h')
    ∧ match outcome.1 with
      | Ok (Some final) =>
          passes self query background iterations time_elapsed h plan tr
            (Returned (rs_history final) (rs_plan final))
          ∧ h `prefix_of` rs_history final
          ∧ (tr ≠ [] →
             ∃ tr0 h0 plan0 res,
               rs_history final = h0 ++ [(plan0, res)]
               ∧ tr = tr0 ++ [EvPlanner query (rs_history final)
                                (rs_plan final);
                              EvShouldEnd (rs_plan final)])
      | Raise _ =>
          passes self query background iterations time_elapsed h plan tr
            Raised
      | Ok None =>
          passes self query background iterations time_elapsed h plan tr
            Running
          ∧ count is_selector tr = fuel
          ∧ ∀ n, max_iterations self = Some n →
                 (fuel ≤ Z.to_nat (n - iterations))%nat
      end.
Proof.
  intros outcome. subst outcome.
  pose proof (loop_fuel_suffices fuel self query start_time background h
                iterations time_elapsed plan s) as Hfuel.
  destruct (loop' fuel self query start_time background h iterations
              time_elapsed plan s) as [r s'] eqn:H.
  cbn [fst snd] in *.
  apply loop_passes in H as (tr & Htr & Hp & Hcount).
  exists tr. split; [exact Htr|].
  split; [exact (passes_planner _ _ _ _ _ _ _ _ _ Hp)|].
  destruct r as [[final|]|e].
  - split; [exact Hp|].
    split; [eapply passes_prefix; eauto | eapply passes_ends; eauto].
  - split; [exact Hp|]. split; [auto|].
    intros n Hmax.
    destruct (Nat.le_gt_cases fuel (Z.to_nat (n - iterations)))
      as [Hle|Hgt]; [exact Hle|].
    destruct (Hfuel n Hmax Hgt eq_refl).
  - exact Hp.
Qed.

(** C8: with [max_iterations = 0] the run asks the planner once and
    returns its plan: the log gains the planner call and nothing else,
    so the selector is not asked and the Caller is not invoked. *)
Theorem zero_iterations_returns_first_plan fuel self query (s : state W) :
  max_iterations self = Some 0 →
  let first := planner_invoke (time_time (st_world s)).2 (query, []) in
  call' (S fuel) self query s =
    (Ok (Some first.1),
     Build_state (st_spec s) first.2
       (st_trace s ++ [EvPlanner query [] first.1])).
Proof.
  intros Hmax first. unfold _call, run, bind, clock, planner, ask, ret.
  subst first. destruct (time_time (st_world s)) as [start_time w0].
  cbn [fst snd st_spec st_world st_trace]. unfold history.
  destruct (planner_invoke w0 (query, [])) as [plan0 w1].
  cbn [loop fst snd]. unfold _should_continue. rewrite Hmax.
  reflexivity.
Qed.

(** C10: when the budgets let the loop start, whatever the first plan
    is, the selector is asked on it and then either the Caller raises,
    and no plan is ever tested, or the pass is completed, by the Caller
    or by the refusal of the selector, the planner is asked with the
    history of that pass, and the first plan tested for the completion
    phrase is the one it answers. *)
Theorem first_plan_is_not_tested fuel self query (s s' : state W) r :
  _should_continue self 0 0 = true →
  run' (S fuel) self query s = (r, s') →
  let plan0 := (planner_invoke (time_time (st_world s)).2 (query, [])).1 in
  ∃ api_plan,
    (∃ e inner,
       r = Raise e
       ∧ re_match no_call_regex api_plan = None
       ∧ Forall caller_event inner
       ∧ st_trace s'
         = st_trace s
             ++ [EvPlanner query [] plan0;
                 EvSelector plan0 "No background" api_plan;
                 EvCaller api_plan "No background"] ++ inner)
    ∨ (∃ inner res plan1 rest,
         acted "No background" api_plan inner res
         ∧ st_trace s'
           = st_trace s
               ++ [EvPlanner query [] plan0;
                   EvSelector plan0 "No background" api_plan] ++ inner
               ++ [EvPlanner query [(plan0, res)] plan1;
                   EvShouldEnd plan1] ++ rest).
Proof.
  intros Hcont. unfold run, bind at 1, clock.
  destruct (time_time (st_world s)) as [start_time w0].
  unfold bind at 1, planner, ask.
  cbn [fst snd st_spec st_world st_trace]. unfold history.
  destruct (planner_invoke w0 (query, [])) as [plan0 w1].
  cbn [fst snd _get_api_selector_background loop]. rewrite Hcont.
  intros H. unfold bind at 1 in H.
  match type of H with context [iteration' self query ?bg ?h plan0 ?s1] =>
    destruct (iteration' self query bg h plan0 s1)
      as [[[h1 plan1]|e] s2] eqn:Hit
  end;
    apply iteration_outcome in Hit
      as [api_plan [(e' & inner & He & Hm & Htr & Hall)
                   |(inner & res & p & Hr & Hact & Htr)]];
    try discriminate; cbn [st_trace] in Htr; exists api_plan.
  - right. inversion Hr; subst h1 plan1; clear Hr.
    unfold bind at 1, log in H. cbn [fst snd st_spec st_world st_trace] in H.
    destruct (_should_end p).
    + unfold ret in H. inversion H; subst.
      exists inner, res, p, []. split; [exact Hact|].
      cbn [st_trace]. rewrite Htr. trace_eq.
    + unfold bind at 1, clock in H. cbn [st_spec st_world st_trace] in H.
      destruct (time_time (st_world s2)) as [now w].
      match type of H with context [loop' fuel ?a ?b ?c ?d ?e ?f ?g ?i ?st] =>
        destruct (loop_grows fuel a b c d e f g i st) as [rest Hrest]
      end.
      rewrite H in Hrest. cbn [snd st_trace] in Hrest.
      exists inner, res, p, rest. split; [exact Hact|].
      rewrite Hrest, Htr. trace_eq.
  - left. inversion H; subst.
    exists e', inner. inversion He; subst.
    split; [reflexivity|]. split; [exact Hm|]. split; [exact Hall|].
    rewrite Htr. trace_eq.
Qed.

End WithCollaborators.

(** *** The loop on the small instance *)

Lemma history_is_appended_before_planning_witness :
  let query := "Find the track x" in
  ∃ final s',
    Demo.loop 20 15 query (Demo.planned query) = (Ok (Some final), s')
    ∧ ∃ tr,
        st_trace s' = st_trace (Demo.planned query) ++ tr
        ∧ (∀ q h' p,
             In (EvPlanner q h' p) tr → q = query ∧ [] `prefix_of` h')
        ∧ passes (Demo.agent 15) query "No background" 0 0 [] query tr
            (Returned (rs_history final) (rs_plan final))
        ∧ [] `prefix_of` rs_history final
        ∧ (tr ≠ [] →
           ∃ tr0 h0 plan0 res,
             rs_history final = h0 ++ [(plan0, res)]
             ∧ tr = tr0 ++ [EvPlanner query (rs_history final)
                              (rs_plan final);
                            EvShouldEnd (rs_plan final)]).
Proof.
  intros query. eexists. eexists.
  split; [vm_compute; reflexivity|].
  exact (history_is_appended_before_planning unit
           Demo.get_matched_endpoint Demo.json_loads Demo.yaml_dump
           Demo.encode Demo.decode Demo.llm_invoke Demo.requests_wrapper
           Demo.parser_invoke Demo.planner_invoke Demo.api_selector_invoke
           Demo.time_time 20 (Demo.agent 15) query 0%Q "No background" []
           0 0%Q query (Demo.planned query)).
Defined.

Lemma zero_iterations_returns_first_plan_witness :
  let query := "Final Answer: nothing to do" in
  max_iterations (Demo.agent 0) = Some 0
  ∧ Demo.answer 1 0 query Demo.start =
      (Ok (Some query),
       Build_state Demo.spec tt [EvPlanner query [] query]).
Proof.
  intros query. split; [reflexivity|].
  apply (zero_iterations_returns_first_plan unit
           Demo.get_matched_endpoint Demo.json_loads Demo.yaml_dump
           Demo.encode Demo.decode Demo.llm_invoke Demo.requests_wrapper
           Demo.parser_invoke Demo.planner_invoke Demo.api_selector_invoke
           Demo.time_time 0 (Demo.agent 0) query Demo.start).
  reflexivity.
Defined.

Lemma first_plan_is_not_tested_witness :
  let query := "Final Answer: nothing to do" in
  let plan0 := query in
  _should_end plan0 = true
  ∧ _should_continue (Demo.agent 15) 0 0 = true
  ∧ ∃ r s',
      Demo.run 20 15 query Demo.start = (r, s')
      ∧ ∃ api_plan,
          (∃ e inner,
             r = Raise e
             ∧ re_match no_call_regex api_plan = None
             ∧ Forall caller_event inner
             ∧ st_trace s'
               = st_trace Demo.start
                   ++ [EvPlanner query [] plan0;
                       EvSelector plan0 "No background" api_plan;
                       EvCaller api_plan "No background"] ++ inner)
          ∨ (∃ inner res plan1 rest,
               acted "No background" api_plan inner res
               ∧ st_trace s'
                 = st_trace Demo.start
                     ++ [EvPlanner query [] plan0;
                         EvSelector plan0 "No background" api_plan] ++ inner
                     ++ [EvPlanner query [(plan0, res)] plan1;
                         EvShouldEnd plan1] ++ rest).
Proof.
  intros query plan0. split; [reflexivity|]. split; [reflexivity|].
  eexists. eexists. split; [vm_compute; reflexivity|].
  apply (first_plan_is_not_tested unit
           Demo.get_matched_endpoint Demo.json_loads Demo.yaml_dump
           Demo.encode Demo.decode Demo.llm_invoke Demo.requests_wrapper
           Demo.parser_invoke Demo.planner_invoke Demo.api_selector_invoke
           Demo.time_time 19 (Demo.agent 15) query Demo.start);
    [reflexivity | vm_compute; reflexivity].
Defined.

End RestGPTFacts.

(** ** More on the Action Parser *)

Module ActionParserMore.
Import PyStr Re ActionParser PyStrFacts ActionParserFacts Aux.

(** X1: the parser has four outcomes and no other, each exactly on its
    condition.  It gives the done signal exactly when the completion
    holds the marker.  Without the marker it raises [ValueError] exactly
    when the pattern is found nowhere, raises [NotImplementedError]
    exactly when the pattern is found and the stripped operation token
    is none of GET, POST, DELETE and PUT, and gives an action with one
    of these verbs exactly when the pattern is found and that verb is
    the stripped operation token. *)
Theorem parser_outcomes (llm_output : string) :
  let found := re_search action_regex llm_output in
  let verbs := ["GET"; "POST"; "DELETE"; "PUT"] in
  ((∃ text, _get_action_and_input llm_output = Ok ("DONE", text))
   ↔ contains marker llm_output = true)
  ∧ (_get_action_and_input llm_output = Raise ValueError
     ↔ contains marker llm_output = false ∧ found = None)
  ∧ (_get_action_and_input llm_output = Raise NotImplementedError
     ↔ contains marker llm_output = false
       ∧ ∃ m, found = Some m ∧ ¬ In (strip (group 1 m)) verbs)
  ∧ (∀ verb, In verb verbs →
       (∃ action_input,
          _get_action_and_input llm_output = Ok (verb, action_input))
       ↔ contains marker llm_output = false
         ∧ ∃ m, found = Some m ∧ strip (group 1 m) = verb)
  ∧ match _get_action_and_input llm_output with
    | Ok (action, _) => action = "DONE" ∨ In action verbs
    | Raise e => e = ValueError ∨ e = NotImplementedError
    end.
Proof.
  intros found verbs. subst found.
  assert (¬ In "DONE" verbs) as Hdone
    by (cbn; intros [H|[H|[H|[H|[]]]]]; discriminate).
  unfold _get_action_and_input.
  destruct (contains marker llm_output) eqn:Hm.
  { split; [split; [reflexivity | eauto]|].
    split; [split; [discriminate | intros [? _]; discriminate]|].
    split; [split; [discriminate | intros [? _]; discriminate]|].
    split; [|now left].
    intros verb Hin. split; [|intros [? _]; discriminate].
    intros [action_input H]. inversion H; subst. contradiction. }
  destruct (re_search action_regex llm_output) as [m|].
  2:{ split; [split; [intros [? ?]; discriminate | discriminate]|].
      split; [split; [now split | reflexivity]|].
      split; [split; [discriminate | intros [_ [m [? _]]]; discriminate]|].
      split; [|now left].
      intros verb Hin. split; [intros [? ?]; discriminate|].
      intros [_ [m [? _]]]; discriminate. }
  destruct (str_in (strip (group 1 m)) supported) eqn:E; cbn [negb].
  - apply str_in_In in E. change supported with verbs in E.
    split; [split; [|discriminate]|].
    { intros [text H]. inversion H as [[Ha Ht]]. rewrite Ha in E.
      contradiction. }
    split; [split; [discriminate | intros [_ ?]; discriminate]|].
    split; [split; [discriminate|]|].
    { intros [_ [m' [Heq Hnot]]]. inversion Heq; subst. contradiction. }
    split; [|now right].
    intros verb Hin. split.
    + intros [action_input H]. inversion H; subst.
      split; [reflexivity|]. now exists m.
    + intros [_ [m' [Heq Hv]]]. inversion Heq; subst. eauto.
  - assert (¬ In (strip (group 1 m)) verbs) as Hnot.
    { intros Hin. apply str_in_In in Hin.
      change verbs with supported in Hin. congruence. }
    split; [split; [intros [? ?]; discriminate | discriminate]|].
    split; [split; [discriminate | intros [_ ?]; discriminate]|].
    split; [split; [intros _; split; [reflexivity | now exists m]
                   | reflexivity]|].
    split; [|now right].
    intros verb Hin. split; [intros [? ?]; discriminate|].
    intros [_ [m' [Heq Hv]]]. inversion Heq; subst. contradiction.
Qed.

(** *** The pattern on a completion written as the prompt asks *)

Lemma match_here_lit l ps s :
  match_here (Lit l :: ps) (l +:+ s) = match_here ps s.
Proof. cbn [match_here]. now rewrite strip_prefix_append. Qed.

Lemma match_here_star_stop c ps a s :
  c a = false →
  match_here (Star c :: ps) (String a s) = match_here ps (String a s).
Proof. intros H. cbn [match_here]. now rewrite H. Qed.

Lemma match_here_star_step c ps a s :
  c a = true →
  match_here (Star c :: ps) (String a s)
  = match match_here (Star c :: ps) s with
    | Some r => Some r
    | None => match_here ps (String a s)
    end.
Proof. intros H. cbn [match_here]. now rewrite H. Qed.

Lemma match_here_lazy c ps s :
  match_here (Group false c :: ps) s
  = match open_capture (match_here ps s) with
    | Some r => Some r
    | None =>
        match s with
        | String a s' =>
            if c a then cons_capture a (match_here (Group false c :: ps) s')
            else None
        | EmptyString => None
        end
    end.
Proof. destruct s; reflexivity. Qed.

Lemma match_here_any (s : string) :
  match_here [Group true any_char] s = Some [s].
Proof.
  induction s as [|a s IH]; [reflexivity|].
  change (match_here [Group true any_char] (String a s))
    with (match cons_capture a (match_here [Group true any_char] s) with
          | Some r => Some r
          | None => open_capture (match_here [] (String a s))
          end).
  now rewrite IH.
Qed.

Lemma match_here_space_any (s : string) :
  match_here [Star is_space; Group true any_char] s
  = Some [lstrip_by is_space s].
Proof.
  induction s as [|a s IH]; [reflexivity|].
  destruct (is_space a) eqn:E.
  - rewrite match_here_star_step by exact E. rewrite IH.
    cbn [lstrip_by]. now rewrite E.
  - rewrite match_here_star_stop by exact E. rewrite match_here_any.
    cbn [lstrip_by]. now rewrite E.
Qed.

(** the end of the pattern on a newline, [Input: ] and a payload *)
Lemma match_here_input (p : string) :
  match_here [Star is_nl; Lit "Input:"; Star is_space; Group true any_char]
    (String "010" ("Input:" +:+ String " " p))
  = Some [lstrip_by is_space p].
Proof.
  rewrite match_here_star_step by reflexivity.
  change ("Input:" +:+ String " " p)
    with (String "I" ("nput:" +:+ String " " p)) at 1.
  rewrite match_here_star_stop by reflexivity.
  change (String "I" ("nput:" +:+ String " " p))
    with ("Input:" +:+ String " " p).
  rewrite match_here_lit.
  rewrite match_here_star_step by reflexivity.
  now rewrite match_here_space_any.
Qed.

Lemma plain_not_nl a : plain a = true → is_nl a = false.
Proof.
  unfold plain, is_nl. destruct (Ascii.eqb a "010") eqn:E; [|reflexivity].
  apply Ascii.eqb_eq in E. subst a. discriminate.
Qed.

Lemma input_pattern_fails a s :
  plain a = true → match_here input_pattern (String a s) = None.
Proof.
  intros H. unfold input_pattern.
  rewrite match_here_star_stop by now apply plain_not_nl.
  cbn [match_here strip_prefix]. rewrite Ascii.eqb_sym.
  unfold plain in H. apply andb_prop in H as [_ H].
  now destruct (Ascii.eqb a "I").
Qed.

Lemma lazy_token tok rest g gs :
  forallb plain (String.list_ascii_of_string tok) = true →
  match_here (Group false any_char :: input_pattern) rest = Some (g :: gs) →
  match_here (Group false any_char :: input_pattern) (tok +:+ rest)
  = Some ((tok +:+ g) :: gs).
Proof.
  intros Htok Hrest. induction tok as [|a tok IH]; [exact Hrest|].
  cbn [String.list_ascii_of_string forallb] in Htok.
  apply andb_prop in Htok as [Ha Htok].
  rewrite !append_cons, match_here_lazy.
  rewrite input_pattern_fails by exact Ha. cbn [open_capture any_char].
  now rewrite (IH Htok).
Qed.

Lemma operation_matches tok payload :
  tok ≠ EmptyString →
  forallb plain (String.list_ascii_of_string tok) = true →
  match_here action_regex
    ("Operation:" +:+ String " " (tok +:+ String "010"
       ("Input:" +:+ String " " payload)))
  = Some [tok; lstrip_by is_space payload].
Proof.
  intros Hne Htok. unfold action_regex. rewrite match_here_lit.
  rewrite match_here_star_step by reflexivity.
  assert (match_here (Group false any_char :: input_pattern)
            (tok +:+ String "010" ("Input:" +:+ String " " payload))
          = Some [tok; lstrip_by is_space payload]) as Hlazy.
  { rewrite <- (append_empty_r tok) at 2. apply lazy_token; [exact Htok|].
    rewrite match_here_lazy. unfold input_pattern.
    now rewrite match_here_input. }
  destruct tok as [|a tok]; [congruence|].
  cbn [String.list_ascii_of_string forallb] in Htok.
  apply andb_prop in Htok as [Ha _].
  rewrite append_cons in *.
  rewrite match_here_star_stop.
  - fold input_pattern. now rewrite Hlazy.
  - unfold plain in Ha. apply andb_prop in Ha as [Ha _].
    now destruct (is_space a).
Qed.

(** the search skips a prefix in which the first literal does not begin *)
Lemma re_search_skip l ps pre rest :
  begins_inside l pre rest = false →
  re_search (Lit l :: ps) (pre +:+ rest) = re_search (Lit l :: ps) rest.
Proof.
  induction pre as [|c pre IH]; intros H; [reflexivity|].
  cbn [begins_inside] in H. apply orb_false_elim in H as [Hs Hin].
  rewrite append_cons in *. cbn [re_search match_here].
  unfold startswith in Hs.
  destruct (strip_prefix l (String c (pre +:+ rest))); [discriminate|].
  now apply IH.
Qed.

Lemma lstrip_by_stop p a s : p a = false → lstrip_by p (String a s) = String a s.
Proof. intros H. cbn [lstrip_by]. now rewrite H. Qed.

Lemma rstrip_by_last p s c :
  p c = false →
  rstrip_by p (s +:+ String c EmptyString) = s +:+ String c EmptyString.
Proof.
  intros H. induction s as [|a s IH].
  - rewrite append_nil_l. cbn [rstrip_by]. now rewrite H.
  - rewrite append_cons. cbn [rstrip_by]. rewrite IH.
    destruct s; reflexivity.
Qed.

Lemma rfind_char_last c s :
  rfind_char c (s +:+ String c EmptyString) = Z.of_nat (String.length s).
Proof.
  induction s as [|a s IH].
  - rewrite append_nil_l. cbn. now rewrite Ascii.eqb_refl.
  - rewrite append_cons. cbn [rfind_char String.length]. rewrite IH.
    destruct (Z.leb_spec 0 (Z.of_nat (String.length s))); lia.
Qed.

Lemma str_take_all s : str_take (String.length s) s = s.
Proof. induction s as [|a s IH]; [reflexivity|]. cbn. now rewrite IH. Qed.

Lemma clamp_index_zero len : 0 ≤ len → clamp_index len 0 = 0.
Proof.
  intros H. unfold clamp_index. cbn.
  destruct (Z.ltb_spec len 0); [lia | reflexivity].
Qed.

Lemma clamp_index_len len : 0 ≤ len → clamp_index len len = len.
Proof.
  intros H. unfold clamp_index. cbv zeta.
  assert ((len <? 0) = false) as E by (apply Z.ltb_ge; lia).
  now rewrite !E, Z.ltb_irrefl.
Qed.

Lemma str_slice_all s :
  str_slice s 0 (Z.of_nat (String.length s)) = s.
Proof.
  unfold str_slice.
  rewrite clamp_index_zero, clamp_index_len by lia.
  destruct (Z.ltb_spec 0 (Z.of_nat (String.length s))) as [H|H].
  - rewrite Z.sub_0_r, Nat2Z.id. cbn [Z.to_nat str_drop].
    apply str_take_all.
  - destruct s; [reflexivity | cbn [String.length] in H; lia].
Qed.

(** a payload between braces comes out of the stripping and of the
    brace bounds as it is *)
Lemma braced_payload_is_kept body :
  let payload := String "{" (body +:+ "}") in
  brace_slice (strip_by is_backtick (strip (lstrip_by is_space payload)))
  = payload.
Proof.
  intros payload. unfold payload, strip, strip_by.
  rewrite !(lstrip_by_stop is_space "{" (body +:+ "}") eq_refl).
  change (String "{" (body +:+ "}")) with (String "{" body +:+ "}").
  rewrite (rstrip_by_last is_space (String "{" body) "}" eq_refl).
  change (String "{" body +:+ "}") with (String "{" (body +:+ "}")) at 1.
  rewrite (lstrip_by_stop is_backtick "{" (body +:+ "}") eq_refl).
  change (String "{" (body +:+ "}")) with (String "{" body +:+ "}").
  rewrite (rstrip_by_last is_backtick (String "{" body) "}" eq_refl).
  unfold brace_slice. rewrite rfind_char_last.
  change (find_char "{" (String "{" body +:+ "}")) with 0.
  replace (Z.of_nat (String.length (String "{" body)) + 1)
    with (Z.of_nat (String.length (String "{" body +:+ "}")))
    by (rewrite length_append; cbn [String.length]; lia).
  apply str_slice_all.
Qed.

(** X2: a completion written as the prompt asks is read back.  For one
    of the four verbs and a payload between braces, the text made of any
    prefix in which no [Operation:] begins, [Operation: ], the verb, a
    newline, [Input: ] and the payload, and which does not hold the
    completion marker, parses to the verb and the payload. *)
Theorem well_formed_action_round_trip (pre verb body : string) :
  let payload := "{" +:+ body +:+ "}" in
  let action := "Operation: " +:+ verb +:+ nl +:+ "Input: " +:+ payload in
  In verb ["GET"; "POST"; "DELETE"; "PUT"] →
  begins_inside "Operation:" pre action = false →
  contains marker (pre +:+ action) = false →
  _get_action_and_input (pre +:+ action) = Ok (verb, payload).
Proof.
  intros payload action Hverb Hpre Hno.
  unfold _get_action_and_input. rewrite Hno.
  unfold action_regex at 1.
  rewrite re_search_skip by exact Hpre. fold action_regex.
  assert (match_here action_regex action
          = Some [verb; lstrip_by is_space payload]) as Hm.
  { apply (operation_matches verb payload);
      cbn [In] in Hverb; destruct Hverb as [<-|[<-|[<-|[<-|[]]]]];
      (discriminate || reflexivity). }
  assert (re_search action_regex action
          = Some [verb; lstrip_by is_space payload]) as ->.
  { destruct action; cbn [re_search]; now rewrite Hm. }
  cbn [group nth pred].
  assert (str_in (strip verb) supported = true ∧ strip verb = verb)
    as [-> ->].
  { cbn [In] in Hverb; destruct Hverb as [<-|[<-|[<-|[<-|[]]]]];
      split; reflexivity. }
  cbn [negb]. f_equal. f_equal. apply (braced_payload_is_kept body).
Qed.

Lemma well_formed_action_round_trip_witness :
  In "PUT" ["GET"; "POST"; "DELETE"; "PUT"]
  ∧ _get_action_and_input
      ("Thought: set the volume" +:+ nl
       +:+ ("Operation: " +:+ "PUT" +:+ nl +:+ "Input: "
            +:+ "{" +:+ "volume_percent: 20" +:+ "}"))
    = Ok ("PUT", "{" +:+ "volume_percent: 20" +:+ "}").
Proof.
  split; [cbn; tauto|].
  apply (well_formed_action_round_trip
           ("Thought: set the volume" +:+ nl) "PUT" "volume_percent: 20");
    [cbn; tauto | reflexivity | reflexivity].
Defined.

End ActionParserMore.

(** ** More on the Caller *)

Module CallerMore.
Import PyStr Py ActionParser World Caller FollowsFacts PyStrFacts Aux.

Section WithCollaborators.

Variable W : Type.
Variable get_matched_endpoint : api_spec → string → option (list string).
Variable json_loads : string → option pyval.
Variable yaml_dump : pyval → string.
Variable encode : string → list nat.
Variable decode : list nat → string.
Variable llm_invoke : W → caller_prompt → string * W.
Variable requests_wrapper : W → http_request → http_response * W.
Variable parser_invoke : W → parser_call → string * W.

Abbreviation prepare :=
  (_prepare_api_docs W get_matched_endpoint yaml_dump encode decode).
Abbreviation get_response := (_get_response W json_loads requests_wrapper).
Abbreviation narrow := (narrow_search_schema W json_loads).
Abbreviation call :=
  (_call W get_matched_endpoint json_loads yaml_dump encode decode
     llm_invoke requests_wrapper parser_invoke).


(** X4: a completion whose action input is not JSON makes the step
    raise [ValueError] right after the completion call: no HTTP request
    is sent and the specification is left as it was. *)
Theorem malformed_payload_sends_nothing self inputs (s s1 : state W)
  excerpt api_url output w action action_input :
  let prompt :=
    {| cp_api_url := api_url;
       cp_api_docs := excerpt;
       cp_api_plan := in_api_plan inputs;
       cp_background := default EmptyString (in_background inputs);
       cp_stop := _stop |} in
  prepare self (in_api_plan inputs) s = (Ok (excerpt, api_url), s1) →
  llm_invoke (st_world s) prompt = (output, w) →
  contains marker output = false →
  _get_action_and_input output = Ok (action, action_input) →
  json_loads action_input = None →
  call self inputs s =
    (Raise ValueError,
     Build_state (st_spec s) w (st_trace s ++ [EvLLM prompt output])).
Proof.
  intros prompt Hp Hllm Hno Hparse Hjson.
  assert (s1 = s) as ->.
  { rewrite <- (CallerFacts.prepare_state W get_matched_endpoint yaml_dump
                  encode decode self (in_api_plan inputs) s).
    now rewrite Hp. }
  assert (String.eqb action "DONE" = false) as Hdone.
  { pose proof (ActionParserFacts.action_is_supported _ _ _ Hno Hparse) as H.
    cbn [In supported] in H.
    destruct H as [<-|[<-|[<-|[<-|[]]]]]; reflexivity. }
  unfold _call, bind. rewrite Hp. unfold ask. fold prompt. rewrite Hllm.
  unfold lift at 1. rewrite Hparse, Hdone.
  unfold _get_response, bind, lift, loads. now rewrite Hjson.
Qed.

(** X5: when the action input has no [url], POST, PUT and DELETE raise
    [KeyError] before any request is sent, while GET sends its request
    with [None] in place of the URL. *)
Theorem missing_url action_input d (s : state W) :
  json_loads action_input = Some (PDict d) →
  dict_get "url" d = None →
  (∀ action, In action ["POST"; "PUT"; "DELETE"] →
     get_response action action_input s = (Raise KeyError, s))
  ∧ ∃ params response,
      st_trace (get_response "GET" action_input s).2
      = st_trace s ++ [EvHTTP (ReqGet PNone params) response].
Proof.
  intros Hjson Hurl. split.
  - intros action Hin. unfold _get_response, bind, lift, loads.
    rewrite Hjson. cbn [py_get py_getitem]. rewrite Hurl.
    cbn [In] in Hin. destruct Hin as [<-|[<-|[<-|[]]]]; reflexivity.
  - unfold _get_response, bind, lift, loads, ret, http, ask.
    rewrite Hjson. cbn [py_get py_contains String.eqb Ascii.eqb Bool.eqb].
    rewrite Hurl.
    destruct (dict_get "params" d) as [v|].
    + destruct (requests_wrapper (st_world s) (ReqGet PNone (Some v)))
        as [[code text|text|] w]; [destruct (negb _)| |];
        eexists; eexists; reflexivity.
    + destruct (requests_wrapper (st_world s) (ReqGet PNone None))
        as [[code text|text|] w]; [destruct (negb _)| |];
        eexists; eexists; reflexivity.
Qed.

(** *** Dictionaries *)

Lemma dict_get_set_eq k v d : dict_get k (dict_set k v d) = Some v.
Proof.
  induction d as [|[k' v'] d IH]; cbn [dict_set dict_get].
  - now rewrite String.eqb_refl.
  - destruct (String.eqb k k') eqn:E; cbn [dict_get]; rewrite E;
      [reflexivity | exact IH].
Qed.

Lemma dict_get_set_ne k k' v d :
  k' ≠ k → dict_get k' (dict_set k v d) = dict_get k' d.
Proof.
  intros Hne. induction d as [|[k0 v0] d IH]; cbn [dict_set dict_get].
  - destruct (String.eqb_spec k' k); [contradiction | reflexivity].
  - destruct (String.eqb_spec k k0) as [->|]; cbn [dict_get].
    + destruct (String.eqb_spec k' k0); [contradiction | reflexivity].
    + now rewrite IH.
Qed.

Lemma dict_set_same k v d : dict_get k d = Some v → dict_set k v d = d.
Proof.
  induction d as [|[k' v'] d IH]; cbn [dict_set dict_get]; [discriminate|].
  destruct (String.eqb k k'); intros H; [congruence|].
  now rewrite IH.
Qed.

Lemma dict_pop_absent k d : dict_get k d = None → dict_pop k d = d.
Proof.
  induction d as [|[k' v'] d IH]; cbn [dict_pop dict_get]; [reflexivity|].
  destruct (String.eqb k k'); [discriminate|]. intros H. now rewrite IH.
Qed.

Lemma dict_pop_set k v x d :
  dict_get k d = Some x → dict_pop k (dict_set k v d) = dict_pop k d.
Proof.
  induction d as [|[k' v'] d IH]; cbn [dict_pop dict_set dict_get];
    [discriminate|].
  destruct (String.eqb k k') eqn:E; cbn [dict_pop]; rewrite E;
    [reflexivity|].
  intros H. now rewrite IH.
Qed.

Lemma dict_get_pop_ne k k' d :
  k' ≠ k → dict_get k' (dict_pop k d) = dict_get k' d.
Proof.
  intros Hne. induction d as [|[k0 v0] d IH]; cbn [dict_pop dict_get];
    [reflexivity|].
  destruct (String.eqb_spec k k0) as [->|]; cbn [dict_get].
  - destruct (String.eqb_spec k' k0); [contradiction | reflexivity].
  - now rewrite IH.
Qed.

Lemma dict_get_absent k d : k ∉ map fst d → dict_get k d = None.
Proof.
  induction d as [|[k' v'] d IH]; cbn [dict_get map fst]; [reflexivity|].
  intros H. apply not_elem_of_cons in H as [Hne H].
  destruct (String.eqb_spec k k'); [contradiction | now apply IH].
Qed.

Lemma dict_get_pop_eq k d :
  NoDup (map fst d) → dict_get k (dict_pop k d) = None.
Proof.
  induction d as [|[k' v'] d IH]; cbn [dict_pop dict_get map fst];
    [reflexivity|].
  intros H. apply NoDup_cons in H as [Hnot H].
  destruct (String.eqb_spec k k') as [->|Hne].
  - now apply dict_get_absent.
  - cbn [dict_get]. destruct (String.eqb_spec k k'); [contradiction|].
    now apply IH.
Qed.

(** *** The reshaping of the documentation *)

(** the flattening returns the dictionary or stores at its [responses]
    key, which is then there *)
Lemma flatten_cases d t :
  flatten_responses (PDict d) = Ok t →
  t = PDict d
  ∨ ∃ props x, dict_get "responses" d = Some x
               ∧ t = PDict (dict_set "responses" props d).
Proof.
  unfold flatten_responses, res_bind. cbn [py_contains py_getitem].
  destruct (dict_get "responses" d) as [x|] eqn:Hx;
    [|intros H; inversion H; now left].
  intros H.
  repeat match type of H with
         | context [match ?y with _ => _ end] =>
             destruct y eqn:?; try discriminate
         end;
    try (inversion H; now left);
    cbn [py_setitem] in H; inversion H; right; eauto.
Qed.

(** without the responses, flattening and dropping amount to dropping *)
Lemma drop_after_flatten d shaped :
  res_bind (flatten_responses (PDict d)) (drop_responses false) = Ok shaped →
  shaped = PDict (dict_pop "responses" d).
Proof.
  intros H. unfold res_bind in H.
  destruct (flatten_responses (PDict d)) as [t|e] eqn:Hf; [|discriminate].
  apply flatten_cases in Hf as [->|(props & x & Hx & ->)];
    unfold drop_responses, res_bind in H; cbn [negb py_contains] in H.
  - destruct (dict_get "responses" d) eqn:Hr; inversion H;
      [reflexivity | now rewrite dict_pop_absent].
  - rewrite dict_get_set_eq in H. inversion H.
    now rewrite (dict_pop_set _ _ x).
Qed.

Lemma schema_missing d rs content j with_resp :
  dict_get "responses" d = Some (PDict rs) →
  dict_get "content" rs = Some (PDict content) →
  dict_get "application/json" content = Some (PDict j) →
  dict_get "schema" j = None →
  res_bind (flatten_responses (PDict d)) (drop_responses with_resp)
  = Raise KeyError.
Proof.
  intros Hr Hc Hj Hs.
  unfold flatten_responses, res_bind.
  cbn [py_contains py_getitem get_path res_bind].
  rewrite Hr. cbn [py_contains py_getitem]. rewrite Hc.
  cbn [py_contains py_getitem]. rewrite Hj. cbn [py_getitem res_bind].
  now rewrite Hs.
Qed.

(** the preparation from the documentation of the last candidate on *)
Lemma prepare_from_docs self api_plan (s : state W) names name i
  name' summary docs :
  get_matched_endpoint (st_spec s) api_plan = Some names →
  last_entry names = Ok name →
  endpoint_docs_by_name self !! name = Some i →
  endpoints (st_spec s) !! i = Some (name', summary, docs) →
  prepare self api_plan s =
    match
      match servers (st_spec s) with
      | [] => Raise IndexError
      | server :: _ => py_getitem server "url"
      end
    with
    | Raise e => (Raise e, s)
    | Ok api_url =>
        match res_bind (flatten_responses docs)
                (drop_responses (with_response self)) with
        | Raise e => (Raise e, s)
        | Ok shaped =>
            (Ok (docs_header name
                 +:+ truncate_docs encode decode (yaml_dump shaped) +:+ nl,
                 api_url), s)
        end
    end.
Proof.
  intros Hm Hlast Hi Hdoc.
  unfold _prepare_api_docs, bind, get_spec, lift, ret, res_bind.
  destruct (match servers (st_spec s) with
            | [] => Raise IndexError
            | server :: _ => py_getitem server "url"
            end) as [api_url|e]; [|reflexivity].
  rewrite Hm, Hlast, Hi. unfold deref. rewrite Hdoc.
  destruct (flatten_responses docs) as [t|e]; [|reflexivity].
  destruct (drop_responses (with_response self) t); reflexivity.
Qed.

(** X6: when the responses are not asked for, the excerpt of a matched
    step is the header of the last candidate around the truncated
    serialisation of its documentation without the [responses] key,
    whatever the response schema holds; in a documentation with distinct
    keys no [responses] key is left and every other key keeps its
    value. *)
Theorem excerpt_without_responses self api_plan (s s1 : state W) names name
  i name' summary d excerpt api_url :
  with_response self = false →
  NoDup (map fst d) →
  get_matched_endpoint (st_spec s) api_plan = Some names →
  last_entry names = Ok name →
  endpoint_docs_by_name self !! name = Some i →
  endpoints (st_spec s) !! i = Some (name', summary, PDict d) →
  prepare self api_plan s = (Ok (excerpt, api_url), s1) →
  let shaped := dict_pop "responses" d in
  excerpt = docs_header name
            +:+ truncate_docs encode decode (yaml_dump (PDict shaped))
            +:+ nl
  ∧ dict_get "responses" shaped = None
  ∧ ∀ k, k ≠ "responses" → dict_get k shaped = dict_get k d.
Proof.
  intros Hwr Hnd Hm Hlast Hi Hdoc Hp shaped.
  rewrite (prepare_from_docs _ _ _ _ _ _ _ _ _ Hm Hlast Hi Hdoc) in Hp.
  rewrite Hwr in Hp.
  destruct (match servers (st_spec s) with
            | [] => Raise IndexError
            | server :: _ => py_getitem server "url"
            end); [|discriminate].
  destruct (res_bind (flatten_responses (PDict d)) (drop_responses false))
    as [t|e] eqn:Hshape; [|discriminate].
  apply drop_after_flatten in Hshape. subst t. inversion Hp; subst.
  split; [reflexivity|]. split.
  - now apply dict_get_pop_eq.
  - intros k Hk. now apply dict_get_pop_ne.
Qed.

(** X7: a JSON response content without a [schema] makes the
    preparation of a matched step raise [KeyError], also when the
    responses are not asked for and would be dropped. *)
Theorem missing_schema_fails_preparation self api_plan (s : state W) names
  name i name' summary d rs content j server rest :
  servers (st_spec s) = server :: rest →
  (∃ api_url, py_getitem server "url" = Ok api_url) →
  get_matched_endpoint (st_spec s) api_plan = Some names →
  last_entry names = Ok name →
  endpoint_docs_by_name self !! name = Some i →
  endpoints (st_spec s) !! i = Some (name', summary, PDict d) →
  dict_get "responses" d = Some (PDict rs) →
  dict_get "content" rs = Some (PDict content) →
  dict_get "application/json" content = Some (PDict j) →
  dict_get "schema" j = None →
  prepare self api_plan s = (Raise KeyError, s).
Proof.
  intros Hsrv [api_url Hurl] Hm Hlast Hi Hdoc Hr Hc Hj Hs.
  rewrite (prepare_from_docs _ _ _ _ _ _ _ _ _ Hm Hlast Hi Hdoc).
  rewrite Hsrv, Hurl.
  now rewrite (schema_missing d rs content j _ Hr Hc Hj Hs).
Qed.

(** *** The index of the documentation *)

Lemma index_from_lookup eps i m name :
  index_from i eps m !! name
  = match last_named name eps with
    | Some j => Some (i + j)%nat
    | None => m !! name
    end.
Proof.
  revert i m. induction eps as [|[[n sm] d] eps IH]; intros i m;
    cbn [index_from last_named]; [reflexivity|].
  rewrite IH. destruct (last_named name eps) as [j|]; [f_equal; lia|].
  destruct (String.eqb_spec n name) as [->|Hne].
  - rewrite lookup_insert_eq. f_equal. lia.
  - now rewrite lookup_insert_ne.
Qed.

Lemma last_named_None name (eps : list (string * string * pyval)) :
  last_named name eps = None →
  ∀ k n sm d, eps !! k = Some (n, sm, d) → n ≠ name.
Proof.
  induction eps as [|[[n0 sm0] d0] eps IH]; cbn [last_named];
    intros H k n sm d Hk; [now destruct k|].
  destruct (last_named name eps) eqn:E; [discriminate|].
  destruct (String.eqb_spec n0 name) as [|Hne]; [discriminate|].
  destruct k as [|k]; cbn in Hk; [congruence | eapply IH; eauto].
Qed.

Lemma last_named_Some name (eps : list (string * string * pyval)) j :
  last_named name eps = Some j →
  (∃ sm d, eps !! j = Some (name, sm, d))
  ∧ ∀ k n sm d, (j < k)%nat → eps !! k = Some (n, sm, d) → n ≠ name.
Proof.
  revert j. induction eps as [|[[n0 sm0] d0] eps IH]; cbn [last_named];
    intros j H; [discriminate|].
  destruct (last_named name eps) as [j'|] eqn:E.
  - inversion H; subst. destruct (IH j' eq_refl) as [Hat Hafter].
    split; [exact Hat|].
    intros k n sm d Hlt Hk. destruct k as [|k]; [lia|].
    cbn in Hk. eapply Hafter; [|exact Hk]. lia.
  - destruct (String.eqb_spec n0 name) as [->|]; [|discriminate].
    inversion H; subst. split; [now exists sm0, d0|].
    intros k n sm d Hlt Hk. destruct k as [|k]; [lia|].
    cbn in Hk. eapply last_named_None; eauto.
Qed.

(** X8: the index built at construction sends a name to the
    documentation of the last triple of the specification that has this
    name, and has no entry exactly for the names of no triple. *)
Theorem index_is_last_wins sp scen with_resp name :
  match endpoint_docs_by_name (init sp scen with_resp) !! name with
  | Some i =>
      (∃ summary docs,
         endpoints sp !! i = Some (name, summary, docs)
         ∧ deref sp (Some i) = docs)
      ∧ ∀ k n sm d,
          (i < k)%nat → endpoints sp !! k = Some (n, sm, d) → n ≠ name
  | None => ∀ k n sm d, endpoints sp !! k = Some (n, sm, d) → n ≠ name
  end.
Proof.
  cbn [init endpoint_docs_by_name]. rewrite index_from_lookup.
  destruct (last_named name (endpoints sp)) as [j|] eqn:E.
  - cbn [Nat.add]. destruct (last_named_Some _ _ _ E) as [[sm [d Hat]] Hafter].
    split; [|exact Hafter]. exists sm, d. split; [exact Hat|].
    unfold deref. now rewrite Hat.
  - rewrite lookup_empty. now apply last_named_None.
Qed.

(** *** The narrowing of the search schema *)

Lemma get_path_app v p q :
  get_path v (p ++ q) = res_bind (get_path v p) (λ x, get_path x q).
Proof.
  revert v. induction p as [|k p IH]; intros v; [reflexivity|].
  cbn [app get_path]. unfold res_bind at 1 3.
  destruct (py_getitem v k); [apply IH | reflexivity].
Qed.

(** a store below a path is read back through the path *)
Lemma update_then_get v path k x old :
  get_path v (path ++ [k]) = Ok old →
  ∃ v', update_path v path (λ o, py_setitem o k x) = Ok v'
        ∧ get_path v' (path ++ [k]) = Ok x.
Proof.
  revert v. induction path as [|k0 path IH]; intros v H.
  - cbn [app get_path res_bind] in H. unfold res_bind in H.
    destruct v; try discriminate. cbn [update_path py_setitem].
    eexists. split; [reflexivity|].
    cbn [app get_path py_getitem]. unfold res_bind.
    now rewrite dict_get_set_eq.
  - cbn [app get_path] in H. unfold res_bind in H.
    destruct (py_getitem v k0) as [sub|] eqn:Hsub; [|discriminate].
    destruct (IH sub H) as [sub' [Hup Hget]].
    destruct v; try discriminate.
    cbn [update_path]. unfold res_bind. rewrite Hsub, Hup.
    cbn [py_setitem]. eexists. split; [reflexivity|].
    cbn [app get_path py_getitem]. unfold res_bind.
    now rewrite dict_get_set_eq.
Qed.

(** X9: a narrowing that finds the search type [t] in the properties of
    the schema returns, logs nothing, and leaves in the specification,
    at the referenced triple, a documentation whose properties are the
    one entry of [t]; the name and the summary of the triple and all the
    other triples are as they were.  A second narrowing of the same
    object for another type then raises [KeyError]. *)
Theorem narrowing_keeps_one_category i name summary doc params action_input
  t v (s : state W) :
  endpoints (st_spec s) !! i = Some (name, summary, doc) →
  search_type_of json_loads params action_input = Ok (Some t) →
  get_path doc (schema_path ++ ["properties"; t]) = Ok v →
  ∃ doc' s',
    narrow (Some i) params action_input s = (Ok tt, s')
    ∧ st_world s' = st_world s ∧ st_trace s' = st_trace s
    ∧ endpoints (st_spec s') = <[i := (name, summary, doc')]> (endpoints (st_spec s))
    ∧ get_path doc' (schema_path ++ ["properties"]) = Ok (PDict [(t, v)])
    ∧ ∀ params' action_input' t',
        search_type_of json_loads params' action_input' = Ok (Some t') →
        t' ≠ t →
        narrow (Some i) params' action_input' s' = (Raise KeyError, s').
Proof.
  intros Hi Hst Hv.
  assert (∃ old, get_path doc (schema_path ++ ["properties"]) = Ok old)
    as [old Hold].
  { change (schema_path ++ ["properties"; t])
      with ((schema_path ++ ["properties"]) ++ [t]) in Hv.
    rewrite get_path_app in Hv. unfold res_bind in Hv.
    destruct (get_path doc (schema_path ++ ["properties"])); [eauto|].
    discriminate. }
  destruct (update_then_get doc schema_path "properties"
              (PDict [(t, v)]) old Hold) as [doc' [Hup Hget]].
  exists doc'. eexists. split.
  - unfold narrow_search_schema, bind, lift, get_spec, put_spec.
    rewrite Hst. unfold deref. rewrite Hi, Hv, Hup. reflexivity.
  - cbn [st_world st_trace st_spec]. split; [reflexivity|].
    split; [reflexivity|]. unfold store. rewrite Hi. cbn [endpoints].
    split; [reflexivity|]. split; [exact Hget|].
    intros params' action_input' t' Hst' Hne.
    unfold narrow_search_schema, bind, lift, get_spec, put_spec.
    rewrite Hst'. unfold deref. cbn [st_spec endpoints].
    rewrite list_lookup_insert_eq by (eapply lookup_lt_Some; exact Hi).
    change (schema_path ++ ["properties"; t'])
      with ((schema_path ++ ["properties"]) ++ [t']).
    rewrite get_path_app, Hget. cbn [res_bind get_path py_getitem dict_get].
    destruct (String.eqb_spec t' t); [contradiction | reflexivity].
Qed.

(** *** A search without a type *)

Lemma contains_split (sub s : string) :
  contains sub s = true → ∃ pre post, s = pre +:+ sub +:+ post.
Proof.
  induction s as [|c s IH]; cbn [contains].
  - destruct (startswith sub EmptyString) eqn:E; [|discriminate].
    intros _. unfold startswith in E.
    destruct (strip_prefix sub EmptyString) as [r|] eqn:Hr; [|discriminate].
    apply strip_prefix_Some in Hr. exists EmptyString, r.
    now rewrite append_nil_l.
  - destruct (startswith sub (String c s)) eqn:E.
    + intros _. unfold startswith in E.
      destruct (strip_prefix sub (String c s)) as [r|] eqn:Hr;
        [|discriminate].
      apply strip_prefix_Some in Hr. exists EmptyString, r.
      now rewrite append_nil_l.
    + intros H. destruct (IH H) as (pre & post & ->).
      exists (String c pre), post. now rewrite append_cons.
Qed.

Lemma contains_inside (sub a b c : string) :
  contains sub (a +:+ b +:+ c) = false → contains sub b = false.
Proof.
  intros H. destruct (contains sub b) eqn:E; [|reflexivity].
  destruct (contains_split _ _ E) as (pre & post & ->).
  rewrite <- H.
  replace (a +:+ (pre +:+ sub +:+ post) +:+ c)
    with ((a +:+ pre) +:+ sub +:+ (post +:+ c))
    by now rewrite !append_assoc.
  symmetry. apply contains_append.
Qed.

(** every piece of a split lies inside the string that is split *)
Lemma split_go_inside (fuel : nat) (sep cur s : string) :
  Forall (λ piece, ∃ a c, cur +:+ s = a +:+ piece +:+ c)
    (split_go fuel sep cur s).
Proof.
  revert cur s. induction fuel as [|f IH]; intros cur s; cbn [split_go].
  { constructor; [|constructor]. exists EmptyString, EmptyString.
    now rewrite append_nil_l, append_empty_r. }
  destruct s as [|c s].
  { constructor; [|constructor]. exists EmptyString, EmptyString.
    now rewrite append_nil_l. }
  destruct (strip_prefix sep (String c s)) as [rest|] eqn:Hr.
  - apply strip_prefix_Some in Hr. rewrite Hr. constructor.
    + exists EmptyString, (sep +:+ rest). now rewrite append_nil_l.
    + eapply Forall_impl; [apply (IH EmptyString rest)|].
      intros piece (a & c' & Heq). rewrite append_nil_l in Heq.
      exists (cur +:+ sep +:+ a), c'. rewrite Heq.
      now rewrite !append_assoc.
  - eapply Forall_impl; [apply (IH (cur +:+ String c EmptyString) s)|].
    intros piece (a & c' & Heq). exists a, c'. rewrite <- Heq.
    rewrite append_assoc. now rewrite append_cons, append_nil_l.
Qed.

Lemma type_in_url_none (url : string) :
  contains "type=" url = false → type_in_url (str_split "&" url) = None.
Proof.
  intros H. unfold str_split.
  pose proof (split_go_inside (String.length url) "&" EmptyString url) as Hin.
  rewrite append_nil_l in Hin.
  induction Hin as [|piece l (a & c & Heq) _ IH]; [reflexivity|].
  cbn [type_in_url]. rewrite Heq in H.
  now rewrite (contains_inside _ _ _ _ H).
Qed.

(** X18: a search step whose request names no type stops at the
    narrowing: when the parameters are absent or have no [type] key and
    the URL of the action input holds no [type=], the narrowing raises
    [UnboundLocalError] and leaves the specification as it was. *)
Theorem search_without_type_raises r params action_input data url
  (s : state W) :
  (params = PNone ∨ ∃ d, params = PDict d ∧ dict_get "type" d = None) →
  json_loads action_input = Some (PDict data) →
  dict_get "url" data = Some (PStr url) →
  contains "type=" url = false →
  narrow r params action_input s = (Raise UnboundLocalError, s).
Proof.
  intros Hparams Hjson Hurl Hno.
  assert (search_type_of json_loads params action_input = Ok None) as Hst.
  { unfold search_type_of, loads. rewrite Hjson.
    cbn [py_getitem res_bind]. rewrite Hurl.
    cbn [str_method res_bind]. rewrite (type_in_url_none _ Hno).
    destruct Hparams as [->|(d & -> & Hd)]; [reflexivity|].
    cbn [is_none negb py_contains res_bind]. now rewrite Hd. }
  unfold narrow_search_schema, bind, lift. now rewrite Hst.
Qed.

End WithCollaborators.

Lemma search_without_type_raises_witness :
  narrow_search_schema unit Demo.json_loads (Some 0%nat) PNone
    (Demo.payload Demo.me_url) Demo.start
  = (Raise UnboundLocalError, Demo.start).
Proof.
  apply (search_without_type_raises unit Demo.json_loads (Some 0%nat) PNone
           (Demo.payload Demo.me_url)
           [("url", PStr Demo.me_url); ("description", PStr "the response");
            ("output_instructions", PStr "the ids")]
           Demo.me_url Demo.start);
    [left; reflexivity | reflexivity | reflexivity | reflexivity].
Defined.

Lemma malformed_payload_sends_nothing_witness :
  let prompt := Demo.prompt (Demo.excerpt "GET /me") Demo.me_plan
                  Demo.base_url in
  Cases.broken_call Demo.start =
    (Raise ValueError,
     Build_state Demo.spec tt [EvLLM prompt Cases.broken_output]).
Proof.
  apply (malformed_payload_sends_nothing unit Demo.get_matched_endpoint
           Demo.json_loads Demo.yaml_dump Demo.encode Demo.decode
           Cases.llm_broken Demo.requests_wrapper Demo.parser_invoke
           Demo.caller (Demo.inputs Demo.me_plan) Demo.start Demo.start
           (Demo.excerpt "GET /me") (PStr Demo.base_url)
           Cases.broken_output tt "POST" "{url: no quotes}");
    vm_compute; reflexivity.
Defined.

Lemma missing_url_witness :
  (∀ action, In action ["POST"; "PUT"; "DELETE"] →
     _get_response unit Cases.loads_empty Demo.requests_wrapper action "{}"
       Demo.start = (Raise KeyError, Demo.start))
  ∧ ∃ params response,
      st_trace (_get_response unit Cases.loads_empty Demo.requests_wrapper
                  "GET" "{}" Demo.start).2
      = st_trace Demo.start ++ [EvHTTP (ReqGet PNone params) response].
Proof.
  apply (missing_url unit Cases.loads_empty Demo.requests_wrapper "{}" []
           Demo.start); reflexivity.
Defined.

Lemma excerpt_without_responses_witness :
  let shaped := dict_pop "responses" [("description", PStr "Search for Item");
                  ("responses",
                   PDict [("content",
                     PDict [("application/json",
                       PDict [("schema",
                         PDict [("properties",
                                 Demo.search_properties)])])])])] in
  Demo.excerpt "GET /search"
  = docs_header "GET /search"
    +:+ truncate_docs Demo.encode Demo.decode (Demo.yaml_dump (PDict shaped))
    +:+ nl
  ∧ dict_get "responses" shaped = None
  ∧ ∀ k, k ≠ "responses" →
         dict_get k shaped
         = dict_get k [("description", PStr "Search for Item");
                       ("responses",
                        PDict [("content",
                          PDict [("application/json",
                            PDict [("schema",
                              PDict [("properties",
                                      Demo.search_properties)])])])])].
Proof.
  apply (excerpt_without_responses unit Demo.get_matched_endpoint
           Demo.yaml_dump Demo.encode Demo.decode Demo.caller
           Demo.search_plan Demo.start Demo.start ["GET /search"]
           "GET /search" 0%nat "GET /search" "Search for Item" _
           (Demo.excerpt "GET /search") (PStr Demo.base_url));
    try (vm_compute; reflexivity).
  apply (bool_decide_unpack _). vm_compute. exact I.
Defined.

Lemma missing_schema_fails_preparation_witness :
  _prepare_api_docs unit Demo.get_matched_endpoint Demo.yaml_dump Demo.encode
    Demo.decode Cases.bare_caller Demo.search_plan Cases.bare_start
  = (Raise KeyError, Cases.bare_start).
Proof.
  apply (missing_schema_fails_preparation unit Demo.get_matched_endpoint
           Demo.yaml_dump Demo.encode Demo.decode Cases.bare_caller
           Demo.search_plan Cases.bare_start ["GET /search"] "GET /search"
           0%nat "GET /search" "Search for Item"
           [("description", PStr "Search for Item");
            ("responses",
             PDict [("content",
               PDict [("application/json",
                 PDict [("example", PStr "none")])])])]
           [("content",
             PDict [("application/json", PDict [("example", PStr "none")])])]
           [("application/json", PDict [("example", PStr "none")])]
           [("example", PStr "none")]
           (PDict [("url", PStr Demo.base_url)]) []);
    try (vm_compute; reflexivity).
  eexists. reflexivity.
Defined.

Lemma narrowing_keeps_one_category_witness :
  let params := PDict [("type", PStr "track")] in
  let v := PDict [("type", PStr "object")] in
  ∃ doc' s',
    narrow_search_schema unit Demo.json_loads (Some 0%nat) params EmptyString
      Demo.start = (Ok tt, s')
    ∧ st_world s' = st_world Demo.start
    ∧ st_trace s' = st_trace Demo.start
    ∧ endpoints (st_spec s')
      = <[0%nat := ("GET /search", "Search for Item", doc')]>
          (endpoints (st_spec Demo.start))
    ∧ get_path doc' (schema_path ++ ["properties"])
      = Ok (PDict [("tracks", v)])
    ∧ ∀ params' action_input' t',
        search_type_of Demo.json_loads params' action_input' = Ok (Some t') →
        t' ≠ "tracks" →
        narrow_search_schema unit Demo.json_loads (Some 0%nat) params'
          action_input' s' = (Raise KeyError, s').
Proof.
  intros params v.
  apply (narrowing_keeps_one_category unit Demo.json_loads 0%nat
           "GET /search" "Search for Item" Demo.search_docs params
           EmptyString "tracks" v Demo.start); reflexivity.
Defined.

(** *** The scratchpad *)

Lemma scratchpad_from_snoc i h plan execution_res scratchpad :
  scratchpad_from i (h ++ [(plan, execution_res)]) scratchpad
  = scratchpad_from i h scratchpad
    +:+ "Thought " +:+ str_of_nat (i + length h) +:+ ": " +:+ plan
    +:+ observation_prefix +:+ execution_res +:+ nl.
Proof.
  revert i scratchpad. induction h as [|[p r] h IH]; intros i scratchpad.
  - cbn [app scratchpad_from length]. rewrite Nat.add_0_r.
    now rewrite !append_assoc.
  - rewrite <- app_comm_cons. cbn [scratchpad_from length]. rewrite IH.
    now replace (S i + length h)%nat with (i + S (length h))%nat by lia.
Qed.

(** X10: the scratchpad of a history with one more pair is the
    scratchpad of the history followed by one entry: [Thought], the
    position of the pair counted from 0, the plan, then [Observation: ],
    the result and a newline.  The scratchpad of the empty history is
    empty. *)
Theorem scratchpad_grows_by_one_entry (h : history) plan execution_res :
  _construct_scratchpad [] = EmptyString
  ∧ _construct_scratchpad (h ++ [(plan, execution_res)])
    = _construct_scratchpad h
      +:+ "Thought " +:+ str_of_nat (length h) +:+ ": " +:+ plan
      +:+ "Observation: " +:+ execution_res +:+ nl.
Proof.
  split; [reflexivity|].
  unfold _construct_scratchpad. rewrite length_app. cbn [length].
  replace (length h + 1 =? 0)%nat with false
    by (symmetry; apply Nat.eqb_neq; lia).
  rewrite scratchpad_from_snoc. cbn [Nat.add].
  destruct h as [|x h]; reflexivity.
Qed.

End CallerMore.

(** ** More on the Orchestrator *)

Module RestGPTMore.
Import PyStr Py Re World RestGPT FollowsFacts PyStrFacts Aux RestGPTFacts.

(** X11: the constructor accepts the five spellings TMDB, Tmdb, tmdb,
    Spotify and spotify, brings them to [tmdb] and [spotify], and raises
    [ValueError] on every other scenario; a scenario it returns is
    accepted unchanged. *)
Theorem scenario_is_normalised (scenario : string) :
  match init_scenario scenario with
  | Ok s =>
      ((In scenario ["TMDB"; "Tmdb"; "tmdb"] ∧ s = "tmdb")
       ∨ (In scenario ["Spotify"; "spotify"] ∧ s = "spotify"))
      ∧ init_scenario s = Ok s
  | Raise e =>
      e = ValueError
      ∧ ¬ In scenario ["TMDB"; "Tmdb"; "tmdb"; "Spotify"; "spotify"]
  end.
Proof.
  unfold init_scenario, ActionParser.str_in. cbn [existsb].
  destruct (String.eqb_spec scenario "TMDB") as [->|H1];
    [cbn; split; [left; split; tauto | reflexivity]|].
  destruct (String.eqb_spec scenario "Tmdb") as [->|H2];
    [cbn; split; [left; split; tauto | reflexivity]|].
  cbn [orb].
  destruct (String.eqb_spec scenario "Spotify") as [->|H3];
    [cbn; split; [right; split; tauto | reflexivity]|].
  cbn [orb].
  destruct (String.eqb_spec scenario "tmdb") as [->|H4];
    [cbn; split; [left; split; tauto | reflexivity]|].
  destruct (String.eqb_spec scenario "spotify") as [->|H5];
    [cbn; split; [right; split; tauto | reflexivity]|].
  cbn [orb negb]. split; [reflexivity|].
  cbn [In]. intros [E|[E|[E|[E|[E|[]]]]]]; congruence.
Qed.

Lemma Qltb_false_mono (t t' m : Q) :
  Qltb t m = false → (t <= t')%Q → Qltb t' m = false.
Proof.
  unfold Qltb. intros H Hle.
  apply negb_false_iff in H. apply Qle_bool_iff in H.
  apply negb_false_iff. apply Qle_bool_iff.
  eapply Qle_trans; eauto.
Qed.

(** X12: an exhausted budget stays exhausted: once [_should_continue]
    is false it is false for every later iteration count and elapsed
    time. *)
Theorem budget_stays_exhausted self (iterations iterations' : Z)
  (time_elapsed time_elapsed' : Q) :
  _should_continue self iterations time_elapsed = false →
  iterations ≤ iterations' →
  (time_elapsed <= time_elapsed')%Q →
  _should_continue self iterations' time_elapsed' = false.
Proof.
  unfold _should_continue. intros H Hi Ht.
  apply andb_false_iff in H. apply andb_false_iff.
  destruct H as [H|H]; [left | right].
  - destruct (max_iterations self) as [n|]; [|discriminate].
    apply Z.ltb_ge in H. apply Z.ltb_ge. lia.
  - destruct (max_execution_time self) as [m|]; [|discriminate].
    eapply Qltb_false_mono; eauto.
Qed.

Lemma budget_stays_exhausted_witness :
  _should_continue (Demo.agent 3) 3 0 = false
  ∧ _should_continue (Demo.agent 3) 7 (5 # 2) = false.
Proof.
  split; [reflexivity|].
  apply (budget_stays_exhausted (Demo.agent 3) 3 7 0 (5 # 2));
    [reflexivity | lia | discriminate].
Defined.

Section WithCollaborators.

Variable W : Type.
Variable get_matched_endpoint : api_spec → string → option (list string).
Variable json_loads : string → option pyval.
Variable yaml_dump : pyval → string.
Variable encode : string → list nat.
Variable decode : list nat → string.
Variable llm_invoke : W → caller_prompt → string * W.
Variable requests_wrapper : W → http_request → http_response * W.
Variable parser_invoke : W → parser_call → string * W.
Variable planner_invoke : W → string * history → string * W.
Variable api_selector_invoke : W → string * string → string * W.
Variable time_time : W → Q * W.

Abbreviation iteration' :=
  (iteration W get_matched_endpoint json_loads yaml_dump encode decode
     llm_invoke requests_wrapper parser_invoke planner_invoke
     api_selector_invoke).
Abbreviation loop' :=
  (loop W get_matched_endpoint json_loads yaml_dump encode decode
     llm_invoke requests_wrapper parser_invoke planner_invoke
     api_selector_invoke time_time).
Abbreviation run' :=
  (run W get_matched_endpoint json_loads yaml_dump encode decode
     llm_invoke requests_wrapper parser_invoke planner_invoke
     api_selector_invoke time_time).
Abbreviation call' :=
  (_call W get_matched_endpoint json_loads yaml_dump encode decode
     llm_invoke requests_wrapper parser_invoke planner_invoke
     api_selector_invoke time_time).

Ltac trace_eq :=
  repeat first [rewrite <- app_assoc | rewrite <- app_comm_cons];
  reflexivity.

(** One turn of the loop: it stops on the budget, or the Caller raises,
    or a pass is completed and the loop stops on the phrase or goes
    on. *)
Lemma loop_step fuel self query start_time background h iterations
  time_elapsed plan (s s' : state W) r :
  loop' (S fuel) self query start_time background h iterations time_elapsed
    plan s = (r, s') →
  (_should_continue self iterations time_elapsed = false
   ∧ r = Ok (Some {| rs_plan := plan; rs_history := h;
                     rs_iterations := iterations;
                     rs_time_elapsed := time_elapsed |})
   ∧ s' = s)
  ∨ (_should_continue self iterations time_elapsed = true
     ∧ ∃ api_plan,
         (∃ e inner,
            r = Raise e
            ∧ re_match no_call_regex api_plan = None
            ∧ st_trace s'
              = st_trace s ++ EvSelector plan background api_plan
                  :: EvCaller api_plan background :: inner
            ∧ Forall caller_event inner)
         ∨ (∃ inner res plan1 (s1 : state W),
              acted background api_plan inner res
              ∧ st_trace s1
                = st_trace s ++ EvSelector plan background api_plan
                    :: inner ++ [EvPlanner query (h ++ [(plan, res)]) plan1;
                                 EvShouldEnd plan1]
              ∧ ((_should_end plan1 = true
                  ∧ r = Ok (Some {| rs_plan := plan1;
                                    rs_history := h ++ [(plan, res)];
                                    rs_iterations := iterations;
                                    rs_time_elapsed := time_elapsed |})
                  ∧ s' = s1)
                 ∨ (_should_end plan1 = false
                    ∧ ∃ now (s2 : state W),
                        st_trace s2 = st_trace s1
                        ∧ loop' fuel self query start_time background
                            (h ++ [(plan, res)]) (iterations + 1)
                            (now - start_time)%Q plan1 s2 = (r, s'))))).
Proof.
  cbn [loop]. destruct (_should_continue self iterations time_elapsed).
  2:{ unfold ret. intros H. inversion H. left. now split. }
  intros H. right. split; [reflexivity|]. unfold bind at 1 in H.
  destruct (iteration' self query background h plan s)
    as [[[h1 plan1]|e] s1] eqn:Hit;
    apply RestGPTFacts.iteration_outcome in Hit
      as [api_plan [(e' & inner & He & Hm & Htr & Hall)
                   |(inner & res & p & Hr & Hact & Htr)]];
    try discriminate; exists api_plan.
  - right. inversion Hr; subst h1 plan1; clear Hr.
    unfold bind at 1, log in H. cbn [fst snd st_spec st_world st_trace] in H.
    exists inner, res, p,
      {| st_spec := st_spec s1; st_world := st_world s1;
         st_trace := st_trace s1 ++ [EvShouldEnd p] |}.
    split; [exact Hact|].
    split; [cbn [st_trace]; rewrite Htr; trace_eq|].
    destruct (_should_end p).
    + left. split; [reflexivity|]. unfold ret in H. inversion H.
      split; reflexivity.
    + right. split; [reflexivity|].
      unfold bind at 1, clock in H. cbn [st_spec st_world st_trace] in H.
      destruct (time_time (st_world s1)) as [now w].
      eexists now, _. split; [|exact H]. reflexivity.
  - left. inversion H; subst. inversion He; subst.
    exists e', inner. now repeat split.
Qed.

(** X13: the loop returns only on the completion phrase or on the
    budget: the plan it returns holds [Final Answer], or
    [_should_continue] is false at the iteration count and the elapsed
    time it ends with; the iteration count never decreases. *)
Theorem loop_stops_on_phrase_or_budget fuel self query start_time background
  h iterations time_elapsed plan (s s' : state W) final :
  loop' fuel self query start_time background h iterations time_elapsed
    plan s = (Ok (Some final), s') →
  (_should_end (rs_plan final) = true
   ∨ _should_continue self (rs_iterations final) (rs_time_elapsed final)
     = false)
  ∧ iterations ≤ rs_iterations final.
Proof.
  revert h iterations time_elapsed plan s.
  induction fuel as [|fuel IH]; intros h iterations time_elapsed plan s H;
    [discriminate|].
  apply loop_step in H
    as [(Hc & Hr & _)
       |(Hc & api_plan
            & [(e & inner & Hr & _)
              |(inner & res & p1 & s1 & _ & _
                  & [(Hend & Hr & _)|(Hend & now & s2 & _ & Hloop)])])].
  - inversion Hr; subst. cbn. split; [now right | lia].
  - discriminate.
  - inversion Hr; subst. cbn. split; [now left | lia].
  - apply IH in Hloop as [Hstop Hle]. split; [exact Hstop | lia].
Qed.

(** X14: with an iteration ceiling [n], whatever the outcome, the loop
    asks the selector, invokes the Caller and asks the planner at most
    as many times as iterations are left. *)
Theorem passes_are_bounded fuel self query start_time background h
  iterations time_elapsed plan (s : state W) n :
  max_iterations self = Some n →
  ∃ tr,
    st_trace (loop' fuel self query start_time background h iterations
                time_elapsed plan s).2 = st_trace s ++ tr
    ∧ (count is_selector tr ≤ Z.to_nat (n - iterations))%nat
    ∧ (count is_caller tr ≤ Z.to_nat (n - iterations))%nat
    ∧ (count is_planner tr ≤ Z.to_nat (n - iterations))%nat.
Proof.
  intros Hmax. revert h iterations time_elapsed plan s.
  induction fuel as [|fuel IH]; intros h iterations time_elapsed plan s.
  { exists []. cbn. rewrite app_nil_r. repeat split; lia. }
  destruct (loop' (S fuel) self query start_time background h iterations
              time_elapsed plan s) as [r s'] eqn:H.
  cbn [snd].
  assert (∀ e, caller_event e → is_selector e = false) as Hsel
    by (intros []; cbn; tauto).
  assert (∀ e, caller_event e → is_caller e = false) as Hcal
    by (intros []; cbn; tauto).
  assert (∀ e, caller_event e → is_planner e = false) as Hpla
    by (intros []; cbn; tauto).
  apply loop_step in H
    as [(Hc & Hr & ->)
       |(Hc & api_plan
            & [(e & inner & Hr & _ & Htr & Hall)
              |(inner & res & p1 & s1 & Hact & Htr
                  & [(Hend & Hr & ->)|(Hend & now & s2 & Hs2 & Hloop)])])].
  - exists []. cbn. rewrite app_nil_r. repeat split; lia.
  - assert (iterations < n) as Hlt.
    { unfold _should_continue in Hc. rewrite Hmax in Hc.
      apply andb_prop in Hc as [Hc _]. now apply Z.ltb_lt. }
    eexists. split; [exact Htr|]. cbn [count is_selector is_caller is_planner].
    rewrite (count_inner _ _ Hsel Hall), (count_inner _ _ Hcal Hall),
      (count_inner _ _ Hpla Hall).
    repeat split; lia.
  - assert (iterations < n) as Hlt.
    { unfold _should_continue in Hc. rewrite Hmax in Hc.
      apply andb_prop in Hc as [Hc _]. now apply Z.ltb_lt. }
    eexists. split; [exact Htr|].
    cbn [count is_selector is_caller is_planner]. rewrite !count_app.
    cbn [count is_selector is_caller is_planner].
    pose proof (count_acted _ _ _ _ _ Hcal Hact).
    assert (count is_selector inner = 0%nat ∧ count is_planner inner = 0%nat)
      as [-> ->].
    { destruct Hact as [m Hm|inner' res' Hm Hall]; cbn [count is_selector
        is_planner]; [split; reflexivity|].
      now rewrite (count_inner _ _ Hsel Hall), (count_inner _ _ Hpla Hall). }
    repeat split; lia.
  - assert (iterations < n) as Hlt.
    { unfold _should_continue in Hc. rewrite Hmax in Hc.
      apply andb_prop in Hc as [Hc _]. now apply Z.ltb_lt. }
    destruct (IH (h ++ [(plan, res)]) (iterations + 1) (now - start_time)%Q
                p1 s2) as (tr & Htr' & H1 & H2 & H3).
    rewrite Hloop in Htr'. cbn [snd] in Htr'.
    eexists. split; [rewrite Htr', Hs2, Htr, <- app_assoc; reflexivity|].
    rewrite <- !app_comm_cons.
    cbn [count is_selector is_caller is_planner]. rewrite !count_app.
    cbn [count is_selector is_caller is_planner].
    pose proof (count_acted _ _ _ _ _ Hcal Hact).
    assert (count is_selector inner = 0%nat ∧ count is_planner inner = 0%nat)
      as [-> ->].
    { destruct Hact as [m Hm|inner' res' Hm Hall]; cbn [count is_selector
        is_planner]; [split; reflexivity|].
      now rewrite (count_inner _ _ Hsel Hall), (count_inner _ _ Hpla Hall). }
    repeat split; lia.
Qed.

(** X15: with an iteration ceiling [n] the run ends: with more fuel than
    [n] it returns a plan or raises, and never runs out of fuel. *)
Theorem run_ends_within_the_ceiling fuel self query (s : state W) n :
  max_iterations self = Some n →
  (Z.to_nat n < fuel)%nat →
  (∃ plan, (call' fuel self query s).1 = Ok (Some plan))
  ∨ (∃ e, (call' fuel self query s).1 = Raise e).
Proof.
  intros Hmax Hfuel.
  assert ((call' fuel self query s).1 ≠ Ok None) as Hcall.
  { unfold _call, run, bind at 1 2, clock.
    destruct (time_time (st_world s)) as [start_time w0].
    unfold bind at 1, planner, ask. cbn [st_spec st_world st_trace].
    destruct (planner_invoke w0 _) as [plan0 w1].
    match goal with |- context [loop' fuel ?a ?b ?c ?d ?x ?f ?g ?i ?st] =>
      pose proof (RestGPTFacts.loop_fuel_suffices W get_matched_endpoint
                    json_loads yaml_dump encode decode llm_invoke
                    requests_wrapper parser_invoke planner_invoke
                    api_selector_invoke time_time fuel a b c d x f g i st n
                    Hmax) as Hne;
      destruct (loop' fuel a b c d x f g i st) as [[[final|]|err] s1]
    end; cbn [fst snd ret option_map] in *; try discriminate.
    exfalso. apply Hne; [rewrite Z.sub_0_r; exact Hfuel | reflexivity]. }
  destruct (call' fuel self query s).1 as [[plan|]|e];
    [left; eauto | now destruct Hcall | right; eauto].
Qed.

(** X16: the loop raises only from inside an invocation of the Caller,
    and does nothing after it: when the loop raises, its log ends with
    the selector call of the pass, the start of the Caller and the
    events of its step; the planner is not asked again. *)
Theorem loop_raises_from_the_caller fuel self query start_time background h
  iterations time_elapsed plan (s s' : state W) e :
  loop' fuel self query start_time background h iterations time_elapsed
    plan s = (Raise e, s') →
  ∃ pre plan' api_plan inner,
    st_trace s'
    = st_trace s ++ pre ++ EvSelector plan' background api_plan
        :: EvCaller api_plan background :: inner
    ∧ Forall caller_event inner
    ∧ re_match no_call_regex api_plan = None.
Proof.
  revert h iterations time_elapsed plan s.
  induction fuel as [|fuel IH]; intros h iterations time_elapsed plan s H;
    [discriminate|].
  apply loop_step in H
    as [(Hc & Hr & _)
       |(Hc & api_plan
            & [(e' & inner & Hr & Hm & Htr & Hall)
              |(inner & res & p1 & s1 & _ & Htr
                  & [(Hend & Hr & _)|(Hend & now & s2 & Hs2 & Hloop)])])];
    try discriminate.
  - exists [], plan, api_plan, inner. now repeat split.
  - apply IH in Hloop as (pre & plan' & api_plan' & inner' & Htr' & Hall & Hm).
    exists (EvSelector plan background api_plan
              :: inner ++ [EvPlanner query (h ++ [(plan, res)]) p1;
                           EvShouldEnd p1] ++ pre), plan', api_plan', inner'.
    split; [|now split]. rewrite Htr', Hs2, Htr. trace_eq.
Qed.

(** the selector and the Caller get the background of the loop *)
Lemma loop_background fuel self query start_time background h iterations
  time_elapsed plan (s : state W) :
  ∃ tr,
    st_trace (loop' fuel self query start_time background h iterations
                time_elapsed plan s).2 = st_trace s ++ tr
    ∧ Forall (carries background) tr.
Proof.
  revert h iterations time_elapsed plan s.
  induction fuel as [|fuel IH]; intros h iterations time_elapsed plan s.
  { exists []. cbn. now rewrite app_nil_r. }
  destruct (loop' (S fuel) self query start_time background h iterations
              time_elapsed plan s) as [r s'] eqn:H.
  cbn [snd].
  assert (∀ l, Forall caller_event l → Forall (carries background) l)
    as Hinner.
  { intros l Hl. eapply Forall_impl; [exact Hl|]. intros []; cbn; tauto. }
  assert (∀ api_plan inner res,
            acted background api_plan inner res →
            Forall (carries background) inner) as Hacted.
  { intros api_plan inner res [m Hm|inner' res' Hm Hall];
      [constructor|]. constructor; [reflexivity | now apply Hinner]. }
  apply loop_step in H
    as [(Hc & Hr & ->)
       |(Hc & api_plan
            & [(e & inner & Hr & _ & Htr & Hall)
              |(inner & res & p1 & s1 & Hact & Htr
                  & [(Hend & Hr & ->)|(Hend & now & s2 & Hs2 & Hloop)])])].
  - exists []. now rewrite app_nil_r.
  - eexists. split; [exact Htr|].
    repeat (constructor; [reflexivity|]). now apply Hinner.
  - eexists. split; [exact Htr|]. constructor; [reflexivity|].
    apply Forall_app. split; [eapply Hacted; eauto|].
    repeat constructor.
  - destruct (IH (h ++ [(plan, res)]) (iterations + 1) (now - start_time)%Q
                p1 s2) as (tr & Htr' & Hall).
    rewrite Hloop in Htr'. cbn [snd] in Htr'.
    eexists. split; [rewrite Htr', Hs2, Htr, <- app_assoc; reflexivity|].
    rewrite <- app_comm_cons. constructor; [reflexivity|].
    rewrite <- app_assoc.
    apply Forall_app. split; [eapply Hacted; eauto|].
    apply Forall_app. split; [repeat constructor | exact Hall].
Qed.

(** X17: the background is never refreshed: in every run, whatever its
    outcome and however long the history has grown, every call of the
    selector and every invocation of the Caller carries the background
    [No background]. *)
Theorem background_is_never_refreshed fuel self query (s : state W) :
  ∃ tr,
    st_trace (run' fuel self query s).2 = st_trace s ++ tr
    ∧ Forall (carries "No background") tr.
Proof.
  unfold run, bind at 1, clock.
  destruct (time_time (st_world s)) as [start_time w0].
  unfold bind at 1, planner, ask. cbn [st_spec st_world st_trace].
  destruct (planner_invoke w0 _) as [plan0 w1].
  cbn [_get_api_selector_background].
  match goal with |- context [loop' fuel ?a ?b ?c ?d ?x ?f ?g ?i ?st] =>
    destruct (loop_background fuel a b c d x f g i st) as (tr & Htr & Hall)
  end.
  cbn [st_trace] in Htr. eexists. split; [rewrite Htr, <- app_assoc;
                                          reflexivity|].
  constructor; [exact I | exact Hall].
Qed.

End WithCollaborators.

Lemma loop_stops_on_phrase_or_budget_witness :
  let query := "Find the track x" in
  ∃ final s',
    Cases.loop_with Cases.planner_busy Cases.selector_refuses 5 2 query
      (Demo.planned query) = (Ok (Some final), s')
    ∧ (_should_end (rs_plan final) = true
       ∨ _should_continue (Demo.agent 2) (rs_iterations final)
           (rs_time_elapsed final) = false)
    ∧ 0 ≤ rs_iterations final.
Proof.
  intros query. eexists. eexists. split; [vm_compute; reflexivity|].
  eapply (loop_stops_on_phrase_or_budget unit Demo.get_matched_endpoint
           Demo.json_loads Demo.yaml_dump Demo.encode Demo.decode
           Demo.llm_invoke Demo.requests_wrapper Demo.parser_invoke
           Cases.planner_busy Cases.selector_refuses Demo.time_time 5
           (Demo.agent 2) query 0%Q "No background" [] 0 0%Q query
           (Demo.planned query) _ _).
  vm_compute; reflexivity.
Defined.

Lemma passes_are_bounded_witness :
  let query := "Find the track x" in
  ∃ tr,
    st_trace (Cases.loop_with Cases.planner_busy Demo.api_selector_invoke
                5 2 query (Demo.planned query)).2
    = st_trace (Demo.planned query) ++ tr
    ∧ (count is_selector tr ≤ Z.to_nat (2 - 0))%nat
    ∧ (count is_caller tr ≤ Z.to_nat (2 - 0))%nat
    ∧ (count is_planner tr ≤ Z.to_nat (2 - 0))%nat.
Proof.
  intros query.
  apply (passes_are_bounded unit Demo.get_matched_endpoint
           Demo.json_loads Demo.yaml_dump Demo.encode Demo.decode
           Demo.llm_invoke Demo.requests_wrapper Demo.parser_invoke
           Cases.planner_busy Demo.api_selector_invoke Demo.time_time 5
           (Demo.agent 2) query 0%Q "No background" [] 0 0%Q query
           (Demo.planned query) 2).
  reflexivity.
Defined.

Lemma run_ends_within_the_ceiling_witness :
  let query := "Find the track x" in
  (∃ plan, (Demo.answer 4 3 query Demo.start).1 = Ok (Some plan))
  ∨ (∃ e, (Demo.answer 4 3 query Demo.start).1 = Raise e).
Proof.
  intros query.
  apply (run_ends_within_the_ceiling unit Demo.get_matched_endpoint
           Demo.json_loads Demo.yaml_dump Demo.encode Demo.decode
           Demo.llm_invoke Demo.requests_wrapper Demo.parser_invoke
           Demo.planner_invoke Demo.api_selector_invoke Demo.time_time 4
           (Demo.agent 3) query Demo.start 3); [reflexivity | vm_compute; lia].
Defined.

Lemma loop_raises_from_the_caller_witness :
  let query := "Who am I" in
  ∃ e s',
    Cases.loop_with Demo.planner_invoke Cases.selector_profile 5 2 query
      (Demo.planned query) = (Raise e, s')
    ∧ ∃ pre plan' api_plan inner,
        st_trace s'
        = st_trace (Demo.planned query) ++ pre
            ++ EvSelector plan' "No background" api_plan
            :: EvCaller api_plan "No background" :: inner
        ∧ Forall caller_event inner
        ∧ re_match no_call_regex api_plan = None.
Proof.
  intros query. eexists. eexists. split; [vm_compute; reflexivity|].
  eapply (loop_raises_from_the_caller unit Demo.get_matched_endpoint
           Demo.json_loads Demo.yaml_dump Demo.encode Demo.decode
           Demo.llm_invoke Demo.requests_wrapper Demo.parser_invoke
           Demo.planner_invoke Cases.selector_profile Demo.time_time 5
           (Demo.agent 2) query 0%Q "No background" [] 0 0%Q query
           (Demo.planned query) _ _).
  vm_compute; reflexivity.
Defined.

End RestGPTMore.
